(** * ptyprocess: a shallow embedding of [ptyprocess/ptyprocess.py]

    The module drives a child process through a pseudoterminal.  Everything
    it does to the outside world goes through calls of the Python runtime
    ([os.waitpid], [os.kill], [time.sleep], the buffered file object, termios,
    ...).  The embedding keeps the Python control flow and replaces the
    outside world by an oracle: a call is appended to a log and answered by a
    function of the log so far, either with a value or with a raised
    exception.  Theorems quantify over every oracle and every platform, so
    they hold whatever the operating system answers. *)

From Stdlib Require Import ZArith List Bool String Ascii QArith Lia.
From Stdlib Require Import RelationClasses Sorted.
From Stdlib.Strings Require Import Byte.
Import ListNotations.
Local Open Scope Z_scope.

(** ** Python values *)

(** A Python [str] is a sequence of Unicode code points. *)
Definition pystr := list Z.

(** A Python [bytes] object. *)
Definition bytes := list byte.

Definition str_of_string (s : string) : pystr :=
  map (fun c => Z.of_N (N_of_ascii c)) (list_ascii_of_string s).

(** ** Exceptions *)

Inductive Exn : Type :=
| OSError (errno : Z)
    (** [OSError] (alias [IOError]) raised with an errno; [args[0]] and
        [.errno] are both the code. *)
| FileNotFoundError (msg : string)
    (** as raised by [spawn]: a subclass of [OSError] built from a message
        only, so [.errno] is [None] and [args[0]] is the message. *)
| TermiosError (code : Z)
| EOFError (msg : string)
| PtyProcessError (msg : string)
| TypeError (msg : string)
| ValueError (msg : string)
| IndexError
| StructError
| OtherException (name : string)
    (** any other subclass of [Exception] *)
| BaseException (name : string)
    (** [KeyboardInterrupt] and the like: not caught by [except Exception] *)
| ProcessExit (code : Z)
    (** [os._exit]: the calling process is gone, nothing after it runs *)
| ProcessReplaced
    (** a successful [exec]: the calling program is gone *).

(** [isinstance(e, OSError)] *)
Definition is_OSError (e : Exn) : bool :=
  match e with
  | OSError _ | FileNotFoundError _ => true
  | _ => false
  end.

(** [isinstance(e, Exception)] *)
Definition is_Exception (e : Exn) : bool :=
  match e with
  | BaseException _ | ProcessExit _ | ProcessReplaced => false
  | _ => true
  end.

(** [e.args[0] == code] and [e.errno == code], for an integer [code]. *)
Definition args0_is (e : Exn) (code : Z) : bool :=
  match e with
  | OSError n | TermiosError n => n =? code
  | _ => false
  end.

Definition errno_is (e : Exn) (code : Z) : bool :=
  match e with
  | OSError n => n =? code
  | _ => false
  end.

(** ** The outside world *)

(** [termios.tcgetattr] result:
    [[iflag, oflag, cflag, lflag, ispeed, ospeed, cc]]. *)
Record Termios : Type := mkTermios {
  iflag : Z; oflag : Z; cflag : Z; lflag : Z;
  ispeed : Z; ospeed : Z; cc : list bytes }.

(** The [struct winsize] packed by [struct.pack("HHHH", ...)]. *)
Record Winsize : Type := mkWinsize {
  ws_row : Z; ws_col : Z; ws_xpixel : Z; ws_ypixel : Z }.

(** Calls of the runtime, indexed by the type of their answer. *)
Inductive Call : Type -> Type :=
(* processes and time *)
| Waitpid (pid options : Z) : Call (Z * Z)
| Kill (pid sig : Z) : Call unit
| Sleep (secs : Q) : Call unit
| Clock : Call Q
(* the buffered file object over the master descriptor *)
| FileRead1 (size : Z) : Call bytes
| FileReadline : Call bytes
| FileWrite (b : bytes) : Call Z
| FileFlush : Call unit
| FileRelease (fd : Z) : Call unit
(* the terminal *)
| Isatty (fd : Z) : Call bool
| Tcgetattr (fd : Z) : Call Termios
| Tcsetattr (fd when : Z) (attr : Termios) : Call unit
| IoctlSetWinsize (fd : Z) (ws : Winsize) : Call unit
| IoctlGetWinsize (fd : Z) (ws : Winsize) : Call Winsize
| GetIntrEof : Call (bytes * bytes)
(* spawn *)
| Which (command : string) : Call (option string)
| Pipe : Call (Z * Z)
| PtyFork : Call (Z * Z)
| IoOpen (fd : Z) (mode : string) : Call unit
| OsClose (fd : Z) : Call unit
| FcntlSetCloexec (fd : Z) : Call unit
| GetrlimitNofile : Call Z
| Closerange (lo hi : Z) : Call unit
| Chdir (path : string) : Call unit
| Preexec : Call unit
| PickleDump (fd : Z) (e : Exn) : Call unit
| PickleLoad (fd : Z) : Call Exn
| Execv (command : string) (argv : list string) : Call unit
| Execvpe (command : string) (argv : list string)
    (env : list (string * string)) : Call unit
| OsExit (code : Z) : Call unit.

Inductive Event : Type :=
| Ev {X : Type} (c : Call X).

(** The operating system and the runtime: the answer to a call, given the
    calls made before it. *)
Class Oracle : Type :=
  answer : forall X : Type, list Event -> Call X -> Exn + X.

(** Constants and macros of the modules [errno], [os], [signal], [termios]
    and [pty], and the Unicode data base behind [str.lower]. *)
Class Platform : Type := {
  EIO : Z; ECHILD : Z; EINVAL : Z; ENOTTY : Z; ENXIO : Z;
  WNOHANG : Z;
  SIGHUP : Z; SIGCONT : Z; SIGINT : Z; SIGKILL : Z;
  WIFEXITED : Z -> bool; WIFSIGNALED : Z -> bool; WIFSTOPPED : Z -> bool;
  WEXITSTATUS : Z -> Z; WTERMSIG : Z -> Z;
  ECHO : Z; TCSANOW : Z;
  CHILD : Z; STDIN_FILENO : Z; EX_OSERR : Z;
  (** [s.lower()] for a string [s] holding a character outside ASCII *)
  unicode_lower : pystr -> pystr }.

(** ** The handle *)

(** [io.BufferedRWPair] over the descriptor given to [__init__]. *)
Record FileObj : Type := mkFileObj {
  fo_fd : Z;
  fo_closed : bool }.

Record PtyProcess : Type := mkPtyProcess {
  pid : Z;
  fd : Z;
  argv : option (list string);
  env : option (list (string * string));
  cwd : option string;
  fileobj : FileObj;
  terminated : bool;
  closed : bool;
  exitstatus : option Z;
  signalstatus : option Z;
  status : option Z;
  flag_eof : bool;
  delayafterclose : Q;
  delayafterterminate : Q;
  echo : option bool  (** the attribute exists once [getecho]/[setecho] ran *) }.

(** The state a method runs in: the object and the calls made so far. *)
Record World : Type := mkWorld {
  self : PtyProcess;
  log : list Event }.

Definition with_self (f : PtyProcess -> PtyProcess) (w : World) : World :=
  mkWorld (f (self w)) (log w).

Definition set_fd (v : Z) (h : PtyProcess) : PtyProcess :=
  mkPtyProcess (pid h) v (argv h) (env h) (cwd h) (fileobj h) (terminated h)
    (closed h) (exitstatus h) (signalstatus h) (status h) (flag_eof h)
    (delayafterclose h) (delayafterterminate h) (echo h).

Definition set_fileobj (v : FileObj) (h : PtyProcess) : PtyProcess :=
  mkPtyProcess (pid h) (fd h) (argv h) (env h) (cwd h) v (terminated h)
    (closed h) (exitstatus h) (signalstatus h) (status h) (flag_eof h)
    (delayafterclose h) (delayafterterminate h) (echo h).

Definition set_terminated (v : bool) (h : PtyProcess) : PtyProcess :=
  mkPtyProcess (pid h) (fd h) (argv h) (env h) (cwd h) (fileobj h) v
    (closed h) (exitstatus h) (signalstatus h) (status h) (flag_eof h)
    (delayafterclose h) (delayafterterminate h) (echo h).

Definition set_closed (v : bool) (h : PtyProcess) : PtyProcess :=
  mkPtyProcess (pid h) (fd h) (argv h) (env h) (cwd h) (fileobj h)
    (terminated h) v (exitstatus h) (signalstatus h) (status h) (flag_eof h)
    (delayafterclose h) (delayafterterminate h) (echo h).

Definition set_exitstatus (v : option Z) (h : PtyProcess) : PtyProcess :=
  mkPtyProcess (pid h) (fd h) (argv h) (env h) (cwd h) (fileobj h)
    (terminated h) (closed h) v (signalstatus h) (status h) (flag_eof h)
    (delayafterclose h) (delayafterterminate h) (echo h).

Definition set_signalstatus (v : option Z) (h : PtyProcess) : PtyProcess :=
  mkPtyProcess (pid h) (fd h) (argv h) (env h) (cwd h) (fileobj h)
    (terminated h) (closed h) (exitstatus h) v (status h) (flag_eof h)
    (delayafterclose h) (delayafterterminate h) (echo h).

Definition set_status (v : option Z) (h : PtyProcess) : PtyProcess :=
  mkPtyProcess (pid h) (fd h) (argv h) (env h) (cwd h) (fileobj h)
    (terminated h) (closed h) (exitstatus h) (signalstatus h) v (flag_eof h)
    (delayafterclose h) (delayafterterminate h) (echo h).

Definition set_flag_eof (v : bool) (h : PtyProcess) : PtyProcess :=
  mkPtyProcess (pid h) (fd h) (argv h) (env h) (cwd h) (fileobj h)
    (terminated h) (closed h) (exitstatus h) (signalstatus h) (status h) v
    (delayafterclose h) (delayafterterminate h) (echo h).

Definition set_echo (v : option bool) (h : PtyProcess) : PtyProcess :=
  mkPtyProcess (pid h) (fd h) (argv h) (env h) (cwd h) (fileobj h)
    (terminated h) (closed h) (exitstatus h) (signalstatus h) (status h)
    (flag_eof h) (delayafterclose h) (delayafterterminate h) v.

(** ** A state and exception monad *)

(** A computation over a state [S]: it ends with a value or a raised
    exception, and the state it reached either way. *)
Definition M (S A : Type) : Type := S -> (Exn + A) * S.

Definition ret {S A} (a : A) : M S A := fun s => (inr a, s).

Definition raise {S A} (e : Exn) : M S A := fun s => (inl e, s).

Definition bind {S A B} (m : M S A) (k : A -> M S B) : M S B :=
  fun s =>
    match m s with
    | (inr a, s') => k a s'
    | (inl e, s') => (inl e, s')
    end.

Declare Scope py_scope.
Delimit Scope py_scope with py.
Notation "x <- m ;; k" := (bind m (fun x => k))
  (at level 61, m at next level, right associativity) : py_scope.
Notation "m ;; k" := (bind m (fun _ => k))
  (at level 61, right associativity) : py_scope.
Local Open Scope py_scope.

(** [try: body except <class> as e: handler e].  [handler e] is [None] when
    no [except] clause matches [e]; state changes made by [body] before it
    raised are kept. *)
Definition try_except {S A} (body : M S A) (handler : Exn -> option (M S A))
  : M S A :=
  fun s =>
    match body s with
    | (inl e, s') =>
        match handler e with
        | Some h => h s'
        | None => (inl e, s')
        end
    | r => r
    end.

(** States that carry the log of calls. *)
Class Logged (S : Type) : Type := {
  get_log : S -> list Event;
  put_log : list Event -> S -> S }.

#[export] Instance Logged_log : Logged (list Event) := {
  get_log := fun l => l;
  put_log := fun l _ => l }.

#[export] Instance Logged_World : Logged World := {
  get_log := log;
  put_log := fun l w => mkWorld (self w) l }.

Definition Method (A : Type) : Type := M World A.

Definition gets {A} (f : PtyProcess -> A) : Method A :=
  fun w => (inr (f (self w)), w).

Definition modify (f : PtyProcess -> PtyProcess) : Method unit :=
  fun w => (inr tt, with_self f w).

Section Model.

Context {P : Platform} {os : Oracle}.

(** Make a call: log it, and take the oracle's answer for it. *)
Definition call {S} `{Logged S} {X} (c : Call X) : M S X :=
  fun s => (answer X (get_log s) c, put_log (get_log s ++ [Ev c]) s).

(** [bytes([i])] *)
Definition _byte {S} (i : Z) : M S bytes :=
  if (0 <=? i) && (i <? 256) then
    match Byte.of_N (Z.to_N i) with
    | Some b => ret [b]
    | None => raise (ValueError "bytes must be in range(0, 256)")
    end
  else raise (ValueError "bytes must be in range(0, 256)").

(** [str.lower]: ASCII strings are lowered letter by letter; the Unicode
    data base decides for every other string. *)
Definition ascii_lower (c : Z) : Z :=
  if (65 <=? c) && (c <=? 90) then c + 32 else c.

Definition str_lower (s : pystr) : pystr :=
  if forallb (fun c => (0 <=? c) && (c <? 128)) s
  then map ascii_lower s
  else unicode_lower s.

(** [ord] *)
Definition ord {S} (s : pystr) : M S Z :=
  match s with
  | [c] => ret c
  | _ => raise (TypeError "ord() expected a character")
  end.

Fixpoint pystr_eqb (a b : pystr) : bool :=
  match a, b with
  | [], [] => true
  | x :: a', y :: b' => (x =? y) && pystr_eqb a' b'
  | _, _ => false
  end.

(** [d[k]] on a dict literal, [None] when [k not in d]. *)
Fixpoint dict_get (d : list (pystr * Z)) (k : pystr) : option Z :=
  match d with
  | [] => None
  | (k', v) :: d' => if pystr_eqb k' k then Some v else dict_get d' k
  end.

(** *** Writing *)

Definition _writeb (b : bytes) (flush : bool) : Method Z :=
  n <- call (FileWrite b) ;;
  (if flush then call FileFlush else ret tt) ;;
  ret n.

Definition write (s : bytes) (flush : bool) : Method Z :=
  _writeb s flush.

(** The table of [sendcontrol]. *)
Definition sendcontrol_d : list (pystr * Z) :=
  [ (str_of_string "@", 0);
    (str_of_string "`", 0);
    (str_of_string "[", 27);
    (str_of_string "{", 27);
    (str_of_string "\", 28);
    (str_of_string "|", 28);
    (str_of_string "]", 29);
    (str_of_string "}", 29);
    (str_of_string "^", 30);
    (str_of_string "~", 30);
    (str_of_string "_", 31);
    (str_of_string "?", 127) ].

Definition sendcontrol (char : pystr) : Method (Z * bytes) :=
  let char := str_lower char in
  a <- ord char ;;
  if (97 <=? a) && (a <=? 122) then
    let a := a - 97 + 1 in
    byte <- _byte a ;;
    n <- _writeb byte true ;;
    ret (n, byte)
  else
    match dict_get sendcontrol_d char with
    | None => ret (0, [])
    | Some v =>
        byte <- _byte v ;;
        n <- _writeb byte true ;;
        ret (n, byte)
    end.

(** *** Reading *)

Definition read (size : Z) : Method bytes :=
  s <- try_except (call (FileRead1 size))
         (fun err =>
            if is_OSError err then
              Some (if args0_is err EIO then
                      modify (set_flag_eof true) ;;
                      raise (EOFError "End Of File (EOF). Exception style platform.")
                    else raise err)
            else None) ;;
  match s with
  | [] =>
      modify (set_flag_eof true) ;;
      raise (EOFError "End Of File (EOF). Empty string style platform.")
  | _ => ret s
  end.

Definition readline : Method bytes :=
  s <- try_except (call FileReadline)
         (fun err =>
            if is_OSError err then
              Some (if args0_is err EIO then
                      modify (set_flag_eof true) ;;
                      raise (EOFError "End Of File (EOF). Exception style platform.")
                    else raise err)
            else None) ;;
  match s with
  | [] =>
      modify (set_flag_eof true) ;;
      raise (EOFError "End Of File (EOF). Empty string style platform.")
  | _ => ret s
  end.

Definition eof : Method bool := gets flag_eof.

Definition sendeof : Method (Z * bytes) :=
  ie <- call GetIntrEof ;;
  let eof := snd ie in
  n <- _writeb eof true ;;
  ret (n, eof).

Definition sendintr : Method (Z * bytes) :=
  ie <- call GetIntrEof ;;
  let intr := fst ie in
  n <- _writeb intr true ;;
  ret (n, intr).

(** *** Liveness *)

(** [os.waitpid] inside [try: ... except OSError as e:] as [isalive] has it
    twice: ECHILD becomes [PtyProcessError], other OS errors are raised
    again. *)
Definition waitpid_or_no_child (msg : string) (pid options : Z)
  : Method (Z * Z) :=
  try_except (call (Waitpid pid options))
    (fun e =>
       if is_OSError e then
         Some (if errno_is e ECHILD then raise (PtyProcessError msg)
               else raise e)
       else None).

(** The end of [isalive], from the last [if pid == 0: return True] on. *)
Definition isalive_decode (r : Z * Z) : Method bool :=
  let (pid, status) := r in
  if pid =? 0 then ret true else
  if WIFEXITED status then
    modify (set_status (Some status)) ;;
    modify (set_exitstatus (Some (WEXITSTATUS status))) ;;
    modify (set_signalstatus None) ;;
    modify (set_terminated true) ;;
    ret false
  else if WIFSIGNALED status then
    modify (set_status (Some status)) ;;
    modify (set_exitstatus None) ;;
    modify (set_signalstatus (Some (WTERMSIG status))) ;;
    modify (set_terminated true) ;;
    ret false
  else if WIFSTOPPED status then
    raise (PtyProcessError
      "isalive() encountered condition where child process is stopped. This is not supported. Is some other process attempting job control with our child pid?")
  else ret false.

Definition isalive : Method bool :=
  t <- gets terminated ;;
  if t then ret false else
  eof_seen <- gets flag_eof ;;
  let waitpid_options := if eof_seen then 0 else WNOHANG in
  p <- gets pid ;;
  r <- waitpid_or_no_child
         "isalive() encountered condition where terminated is 0, but there was no child process. Did someone else call waitpid() on our process?"
         p waitpid_options ;;
  if fst r =? 0 then
    p <- gets pid ;;
    r <- waitpid_or_no_child
           "isalive() encountered condition that should never happen. There was no child process. Did someone else call waitpid() on our process?"
           p waitpid_options ;;
    if fst r =? 0 then ret true else isalive_decode r
  else isalive_decode r.

Definition wait : Method (option Z) :=
  alive <- isalive ;;
  if alive then
    p <- gets pid ;;
    r <- call (Waitpid p 0) ;;
    let status := snd r in
    modify (set_exitstatus (Some (WEXITSTATUS status))) ;;
    (if WIFEXITED status then
       modify (set_status (Some status)) ;;
       modify (set_exitstatus (Some (WEXITSTATUS status))) ;;
       modify (set_signalstatus None) ;;
       modify (set_terminated true)
     else if WIFSIGNALED status then
       modify (set_status (Some status)) ;;
       modify (set_exitstatus None) ;;
       modify (set_signalstatus (Some (WTERMSIG status))) ;;
       modify (set_terminated true)
     else if WIFSTOPPED status then
       raise (PtyProcessError
         "Called wait() on a stopped child process. This is not supported. Is some other process attempting job control with our child pid?")
     else ret tt) ;;
    gets exitstatus
  else gets exitstatus.

Definition kill (sig : Z) : Method unit :=
  alive <- isalive ;;
  if alive then p <- gets pid ;; call (Kill p sig) else ret tt.

(** *** Termination *)

(** The body of the [try] of [terminate]. *)
Definition terminate_signals (force : bool) : Method bool :=
  kill SIGHUP ;;
  d <- gets delayafterterminate ;; call (Sleep d) ;;
  alive <- isalive ;;
  if negb alive then ret true else
  kill SIGCONT ;;
  d <- gets delayafterterminate ;; call (Sleep d) ;;
  alive <- isalive ;;
  if negb alive then ret true else
  kill SIGINT ;;
  d <- gets delayafterterminate ;; call (Sleep d) ;;
  alive <- isalive ;;
  if negb alive then ret true else
  if force then
    kill SIGKILL ;;
    d <- gets delayafterterminate ;; call (Sleep d) ;;
    alive <- isalive ;;
    if negb alive then ret true else ret false
  else ret false.

(** The [except OSError:] clause of [terminate]. *)
Definition terminate_last_attempt : Method bool :=
  d <- gets delayafterterminate ;; call (Sleep d) ;;
  alive <- isalive ;;
  if negb alive then ret true else ret false.

Definition terminate (force : bool) : Method bool :=
  alive <- isalive ;;
  if negb alive then ret true else
  try_except (terminate_signals force)
    (fun e => if is_OSError e then Some terminate_last_attempt else None).

(** *** Closing *)

Definition flush : Method unit := ret tt.

(** [self.fileobj.close()].  Python's [io] objects remember that they are
    closed: closing one again has no effect, and the descriptor handed to
    [__init__] is released by the first close only, also when that close
    raises. *)
Definition fileobj_close : Method unit :=
  fo <- gets fileobj ;;
  if fo_closed fo then ret tt else
  modify (set_fileobj (mkFileObj (fo_fd fo) true)) ;;
  call (FileRelease (fo_fd fo)).

Definition close (force : bool) : Method unit :=
  c <- gets closed ;;
  if negb c then
    flush ;;
    fileobj_close ;;
    d <- gets delayafterclose ;; call (Sleep d) ;;
    alive <- isalive ;;
    (if alive then
       t <- terminate force ;;
       if negb t then raise (PtyProcessError "Could not terminate the child.")
       else ret tt
     else ret tt) ;;
    modify (set_fd (-1)) ;;
    modify (set_closed true)
  else ret tt.

Definition __del__ : Method unit :=
  c <- gets closed ;;
  if negb c then
    try_except (close true)
      (fun e => if is_Exception e then Some (ret tt) else None)
  else ret tt.

Definition fileno : Method Z := gets fd.

(** *** The terminal *)

(** The module-level [_setecho(fd, state)]. *)
Definition _setecho {S} `{Logged S} (fd : Z) (state : bool) : M S unit :=
  attr <- try_except (call (Tcgetattr fd))
            (fun err =>
               match err with
               | TermiosError _ =>
                   Some (if args0_is err EINVAL then raise (OSError EINVAL)
                         else raise err)
               | _ => None
               end) ;;
  let attr3 :=
    if state then Z.lor (lflag attr) ECHO
    else Z.land (lflag attr) (Z.lnot ECHO) in
  let attr := mkTermios (iflag attr) (oflag attr) (cflag attr) attr3
                (ispeed attr) (ospeed attr) (cc attr) in
  try_except (call (Tcsetattr fd TCSANOW attr))
    (fun err =>
       if is_OSError err then
         Some (if args0_is err EINVAL then raise (OSError EINVAL)
               else raise err)
       else None).

(** [struct.pack("HHHH", a, b, c, d)] *)
Definition struct_pack_HHHH {S} (a b c d : Z) : M S Winsize :=
  if forallb (fun v => (0 <=? v) && (v <=? 65535)) [a; b; c; d]
  then ret (mkWinsize a b c d)
  else raise StructError.

(** The module-level [_setwinsize(fd, rows, cols)]. *)
Definition _setwinsize {S} `{Logged S} (fd rows cols : Z) : M S unit :=
  s <- struct_pack_HHHH rows cols 0 0 ;;
  call (IoctlSetWinsize fd s).

Definition isatty : Method bool :=
  f <- gets fd ;; call (Isatty f).

Definition getecho : Method bool :=
  f <- gets fd ;;
  attr <- try_except (call (Tcgetattr f))
            (fun err =>
               match err with
               | TermiosError _ =>
                   Some (if args0_is err EINVAL then raise (OSError EINVAL)
                         else raise err)
               | _ => None
               end) ;;
  let e := negb (Z.land (lflag attr) ECHO =? 0) in
  modify (set_echo (Some e)) ;;
  ret e.

Definition setecho (state : bool) : Method unit :=
  f <- gets fd ;;
  _setecho f state ;;
  modify (set_echo (Some state)).

(** [waitnoecho] loops until echo is off.  [fuel] bounds the number of
    rounds of the model; [None] says the loop was still running. *)
Fixpoint waitnoecho_until (end_time timeout : Q) (fuel : nat)
  : Method (option bool) :=
  match fuel with
  | O => ret None
  | Datatypes.S fuel' =>
      e <- getecho ;;
      if negb e then ret (Some true) else
      if negb (Qle_bool 0 timeout) then ret (Some false) else
      now <- call Clock ;;
      let timeout := (end_time - now)%Q in
      call (Sleep (1 # 10)) ;;
      waitnoecho_until end_time timeout fuel'
  end.

Fixpoint waitnoecho_forever (fuel : nat) : Method (option bool) :=
  match fuel with
  | O => ret None
  | Datatypes.S fuel' =>
      e <- getecho ;;
      if negb e then ret (Some true) else
      call (Sleep (1 # 10)) ;;
      waitnoecho_forever fuel'
  end.

Definition waitnoecho (timeout : option Q) (fuel : nat)
  : Method (option bool) :=
  match timeout with
  | Some timeout =>
      now <- call Clock ;;
      let end_time := (now + timeout)%Q in
      waitnoecho_until end_time timeout fuel
  | None => waitnoecho_forever fuel
  end.

Definition getwinsize : Method (Z * Z) :=
  s <- struct_pack_HHHH 0 0 0 0 ;;
  f <- gets fd ;;
  x <- call (IoctlGetWinsize f s) ;;
  ret (ws_row x, ws_col x).

Definition setwinsize (rows cols : Z) : Method unit :=
  f <- gets fd ;;
  _setwinsize f rows cols.

(** *** Construction *)

Definition __init__ (pid fd : Z) (argv : option (list string))
    (env : option (list (string * string))) (cwd : option string)
  : M (list Event) PtyProcess :=
  call (IoOpen fd "rb") ;;
  call (IoOpen fd "wb") ;;
  ret (mkPtyProcess pid fd argv env cwd (mkFileObj fd false)
         false false None None None false (1 # 10) (1 # 10) None).

(** Run a method of [inst] from code that is not itself a method. *)
Definition on_instance {A} (inst : PtyProcess) (m : Method A)
  : M (list Event) (A * PtyProcess) :=
  fun l =>
    match m (mkWorld inst l) with
    | (inr a, w) => (inr (a, self w), log w)
    | (inl e, w) => (inl e, log w)
    end.

(** What [spawn] may be given as [argv]. *)
Inductive PyArgv : Type :=
| ArgvList (items : list string)
| ArgvTuple (items : list string)
| ArgvOther (repr : string).

Definition args0_in (e : Exn) (codes : list Z) : bool :=
  existsb (args0_is e) codes.

(** [sorted(set(l))] *)
Fixpoint insert_fd (x : Z) (l : list Z) : list Z :=
  match l with
  | [] => [x]
  | y :: l' =>
      if x <? y then x :: l
      else if x =? y then l
      else y :: insert_fd x l'
  end.

Definition sorted_set (l : list Z) : list Z :=
  fold_right insert_fd [] l.

Fixpoint for_each {S A} (l : list A) (body : A -> M S unit) : M S unit :=
  match l with
  | [] => ret tt
  | a :: l' => body a ;; for_each l' body
  end.

(** [os._exit(code)] does not return. *)
Definition os_exit {S} `{Logged S} {A} (code : Z) : M S A :=
  call (OsExit code) ;; raise (ProcessExit code).

(** The branch of [spawn] that runs in the child. *)
Definition spawn_child (command : string) (argv : list string)
    (cwd : option string) (env : option (list (string * string)))
    (echo preexec_fn : bool) (dimensions : Z * Z) (pass_fds : list Z)
    (exec_err_pipe_read exec_err_pipe_write : Z)
  : M (list Event) unit :=
  try_except (_setwinsize STDIN_FILENO (fst dimensions) (snd dimensions))
    (fun err =>
       if is_OSError err then
         Some (if negb (args0_in err [EINVAL; ENOTTY]) then raise err
               else ret tt)
       else None) ;;
  (if negb echo then
     try_except (_setecho STDIN_FILENO false)
       (fun err =>
          if is_OSError err || match err with TermiosError _ => true
                               | _ => false end then
            Some (if negb (args0_in err [EINVAL; ENOTTY]) then raise err
                  else ret tt)
          else None)
   else ret tt) ;;
  call (OsClose exec_err_pipe_read) ;;
  call (FcntlSetCloexec exec_err_pipe_write) ;;
  nofile <- call GetrlimitNofile ;;
  let max_fd := Z.min 1048576 nofile in
  let spass_fds := sorted_set (pass_fds ++ [exec_err_pipe_write]) in
  for_each (combine (2 :: spass_fds) (spass_fds ++ [max_fd]))
    (fun pair => call (Closerange (fst pair + 1) (snd pair))) ;;
  match cwd with
  | Some dir => call (Chdir dir)
  | None => ret tt
  end ;;
  (if preexec_fn then
     try_except (call Preexec)
       (fun err =>
          if is_Exception err then
            Some (call (PickleDump exec_err_pipe_write err) ;; os_exit 1)
          else None)
   else ret tt) ;;
  try_except
    (match env with
     | None => call (Execv command argv)
     | Some env => call (Execvpe command argv env)
     end ;;
     raise ProcessReplaced)
    (fun err =>
       if is_OSError err then
         Some (call (PickleDump exec_err_pipe_write err) ;; os_exit EX_OSERR)
       else None).

(** The class method [spawn].  [preexec_fn] says whether a hook was given;
    running the hook is the call [Preexec]. *)
Definition spawn (argv : PyArgv) (cwd : option string)
    (env : option (list (string * string))) (echo preexec_fn : bool)
    (dimensions : Z * Z) (pass_fds : list Z)
  : M (list Event) PtyProcess :=
  argv <- match argv with
          | ArgvList items | ArgvTuple items => ret items
          | ArgvOther repr =>
              raise (TypeError
                       ("Expected a list or tuple for argv, got " ++ repr))
          end ;;
  command <- match argv with
             | c :: _ => ret c
             | [] => raise IndexError
             end ;;
  command_with_path <- call (Which command) ;;
  match command_with_path with
  | None =>
      raise (FileNotFoundError
               ("The command was not found or was not executable: "
                  ++ command ++ "."))
  | Some command =>
      let argv := command :: tl argv in
      pipe <- call Pipe ;;
      let exec_err_pipe_read := fst pipe in
      let exec_err_pipe_write := snd pipe in
      forked <- call PtyFork ;;
      let pid := fst forked in
      let fd := snd forked in
      (if pid =? CHILD then
         spawn_child command argv cwd env echo preexec_fn dimensions pass_fds
           exec_err_pipe_read exec_err_pipe_write
       else ret tt) ;;
      inst <- __init__ pid fd (Some argv) env cwd ;;
      call (OsClose exec_err_pipe_write) ;;
      try_except (err <- call (PickleLoad exec_err_pipe_read) ;; raise err)
        (fun e => match e with
                  | EOFError _ => Some (ret tt)
                  | _ => None
                  end) ;;
      r <- try_except
             (on_instance inst (setwinsize (fst dimensions) (snd dimensions)))
             (fun err =>
                if is_OSError err then
                  Some (if negb (args0_in err [EINVAL; ENOTTY; ENXIO])
                        then raise err
                        else ret (tt, inst))
                else None) ;;
      ret (snd r)
  end.

(** *** The operations of a handle *)

Inductive Op : Type :=
| OpClose (force : bool)
| OpDel
| OpFileno
| OpFlush
| OpIsatty
| OpWaitnoecho (timeout : option Q) (fuel : nat)
| OpGetecho
| OpSetecho (state : bool)
| OpRead (size : Z)
| OpReadline
| OpWrite (s : bytes) (flush : bool)
| OpSendcontrol (char : pystr)
| OpSendeof
| OpSendintr
| OpEof
| OpTerminate (force : bool)
| OpWait
| OpIsalive
| OpKill (sig : Z)
| OpGetwinsize
| OpSetwinsize (rows cols : Z).

(** The state a call leaves, whether it returned or raised. *)
Definition after {A} (m : Method A) (w : World) : World := snd (m w).

Definition run_op (op : Op) : World -> World :=
  match op with
  | OpClose force => after (close force)
  | OpDel => after __del__
  | OpFileno => after fileno
  | OpFlush => after flush
  | OpIsatty => after isatty
  | OpWaitnoecho timeout fuel => after (waitnoecho timeout fuel)
  | OpGetecho => after getecho
  | OpSetecho state => after (setecho state)
  | OpRead size => after (read size)
  | OpReadline => after readline
  | OpWrite s flush => after (write s flush)
  | OpSendcontrol char => after (sendcontrol char)
  | OpSendeof => after sendeof
  | OpSendintr => after sendintr
  | OpEof => after eof
  | OpTerminate force => after (terminate force)
  | OpWait => after wait
  | OpIsalive => after isalive
  | OpKill sig => after (kill sig)
  | OpGetwinsize => after getwinsize
  | OpSetwinsize rows cols => after (setwinsize rows cols)
  end.

(** A client using the handle: one operation after the other, going on
    after an operation that raised. *)
Definition run_ops (ops : list Op) (w : World) : World :=
  fold_left (fun w op => run_op op w) ops w.

End Model.

(** ** Observations on a run *)

(** The state with some more calls logged. *)
Definition logged (es : list Event) (w : World) : World :=
  mkWorld (self w) (log w ++ es).

(** The signals sent, oldest first, each with the process it went to. *)
Definition kills_of (l : list Event) : list (Z * Z) :=
  flat_map (fun e => match e with
                     | Ev (Kill p sig) => [(p, sig)]
                     | Ev _ => []
                     end) l.

(** How often a descriptor was released by a file object. *)
Definition releases (l : list Event) : nat :=
  List.length (filter (fun e => match e with
                           | Ev (FileRelease _) => true
                           | Ev _ => false
                           end) l).

(** Exactly one of two optional values is set. *)
Definition exactly_one (a b : option Z) : Prop :=
  (a <> None /\ b = None) \/ (a = None /\ b <> None).

(** A handle whose termination is recorded has exactly one of the exit
    status and the signal status. *)
Definition exit_settled (w : World) : Prop :=
  terminated (self w) = true ->
  exactly_one (exitstatus (self w)) (signalstatus (self w)).

(** Since the log had [n] releases, the descriptor was released at most
    once, and not at all while the file object is open. *)
Definition released_once (n : nat) (w : World) : Prop :=
  (fo_closed (fileobj (self w)) = false -> releases (log w) = n)
  /\ (releases (log w) <= n + 1)%nat.

(** [flag_eof] did not go back from true to false. *)
Definition eof_sticky (w w' : World) : Prop :=
  flag_eof (self w) = true -> flag_eof (self w') = true.

(** The property [I] of states is not lost. *)
Definition preserves (I : World -> Prop) (w w' : World) : Prop := I w -> I w'.

Definition is_release {X} (c : Call X) : bool :=
  match c with
  | FileRelease _ => true
  | _ => false
  end.

(** Whatever [m] does, the state it leaves is related by [R] to the state
    it started in. *)
Definition keeps {S A} (R : S -> S -> Prop) (m : M S A) : Prop :=
  forall s, R s (snd (m s)).

Section Observations.

Context {P : Platform} {os : Oracle}.

(** Writing the single byte [b] through the file object, call by call: the
    write of [[b]], the flush when the write returned, and the count with
    the byte when both returned. *)
Definition single_byte_written (b : byte) (w : World)
  : (Exn + Z * bytes) * World :=
  let write_call := Ev (FileWrite [b]) in
  match answer _ (log w) (FileWrite [b]) with
  | inl e => (inl e, logged [write_call] w)
  | inr n =>
      match answer _ (log w ++ [write_call]) FileFlush with
      | inl e => (inl e, logged [write_call; Ev FileFlush] w)
      | inr _ => (inr (n, [b]), logged [write_call; Ev FileFlush] w)
      end
  end.

(** The options [isalive] waits with. *)
Definition probe_options (w : World) : Z :=
  if flag_eof (self w) then 0 else WNOHANG.

(** The answer that decides [isalive] on a handle not yet terminated: the
    first answer of [waitpid], or the second when the first had pid 0. *)
Definition probe_answer (w : World) : Exn + Z * Z :=
  let c := Waitpid (pid (self w)) (probe_options w) in
  match answer _ (log w) c with
  | inr (0, _) => answer _ (log w ++ [Ev c]) c
  | r => r
  end.

(** A wait status that [isalive] and [wait] take for a stopped child. *)
Definition stopped_status (st : Z) : Prop :=
  WIFEXITED st = false /\ WIFSIGNALED st = false /\ WIFSTOPPED st = true.

(** The signals [terminate force] may send, in their order. *)
Definition escalation (force : bool) : list Z :=
  [SIGHUP; SIGCONT; SIGINT] ++ (if force then [SIGKILL] else []).

(** A reading method [m] that asks the file object with the call [c] turns
    both signs of the end of the stream into [EOFError] and [flag_eof], and
    leaves every other answer of the call as it is. *)
Definition normalises_eof (m : Method bytes) (c : Call bytes) : Prop :=
  forall w : World,
    let reply := answer bytes (log w) c in
    (reply = inl (OSError EIO) \/ reply = inr [] ->
       exists msg,
         m w = (inl (EOFError msg),
                logged [Ev c] (with_self (set_flag_eof true) w)))
    /\ (forall e, e <> OSError EIO -> reply = inl e ->
          m w = (inl e, logged [Ev c] w))
    /\ (forall s, s <> [] -> reply = inr s ->
          m w = (inr s, logged [Ev c] w)).

(** What [isalive] writes into the handle for a child that exited, and for
    one that a signal killed. *)
Definition record_exit (st : Z) (h : PtyProcess) : PtyProcess :=
  set_terminated true
    (set_signalstatus None
       (set_exitstatus (Some (WEXITSTATUS st)) (set_status (Some st) h))).

Definition record_signal (st : Z) (h : PtyProcess) : PtyProcess :=
  set_terminated true
    (set_signalstatus (Some (WTERMSIG st))
       (set_exitstatus None (set_status (Some st) h))).

(** The calls of [waitpid] that [isalive] makes on a handle not yet
    terminated. *)
Definition probe_calls (w : World) : list Event :=
  let c := Waitpid (pid (self w)) (probe_options w) in
  match answer _ (log w) c with
  | inr (0, _) => [Ev c; Ev c]
  | _ => [Ev c]
  end.

(** The runs of [isalive], case by case. *)
Inductive isalive_run (w : World) : (Exn + bool) * World -> Prop :=
| alive_terminated :
    terminated (self w) = true ->
    isalive_run w (inr false, w)
| alive_no_status st :
    terminated (self w) = false ->
    probe_answer w = inr (0, st) ->
    isalive_run w (inr true, logged (probe_calls w) w)
| alive_exited p st :
    terminated (self w) = false ->
    probe_answer w = inr (p, st) -> p <> 0 ->
    WIFEXITED st = true ->
    isalive_run w
      (inr false, logged (probe_calls w) (with_self (record_exit st) w))
| alive_signaled p st :
    terminated (self w) = false ->
    probe_answer w = inr (p, st) -> p <> 0 ->
    WIFEXITED st = false -> WIFSIGNALED st = true ->
    isalive_run w
      (inr false, logged (probe_calls w) (with_self (record_signal st) w))
| alive_stopped p st msg :
    terminated (self w) = false ->
    probe_answer w = inr (p, st) -> p <> 0 ->
    stopped_status st ->
    isalive_run w (inl (PtyProcessError msg), logged (probe_calls w) w)
| alive_unclassified p st :
    terminated (self w) = false ->
    probe_answer w = inr (p, st) -> p <> 0 ->
    WIFEXITED st = false -> WIFSIGNALED st = false -> WIFSTOPPED st = false ->
    isalive_run w (inr false, logged (probe_calls w) w)
| alive_no_child msg :
    terminated (self w) = false ->
    probe_answer w = inl (OSError ECHILD) ->
    isalive_run w (inl (PtyProcessError msg), logged (probe_calls w) w)
| alive_failed e :
    terminated (self w) = false ->
    probe_answer w = inl e -> e <> OSError ECHILD ->
    isalive_run w (inl e, logged (probe_calls w) w).

(** What the blocking [waitpid] of [wait] leads to, once [isalive] has
    answered [True] in the state [w1]. *)
Definition wait_outcome (w1 : World) : (Exn + option Z) * World :=
  let c := Waitpid (pid (self w1)) 0 in
  match answer _ (log w1) c with
  | inl e => (inl e, logged [Ev c] w1)
  | inr (_, st) =>
      if WIFEXITED st then
        (inr (Some (WEXITSTATUS st)),
         logged [Ev c] (with_self (record_exit st) w1))
      else if WIFSIGNALED st then
        (inr None, logged [Ev c] (with_self (record_signal st) w1))
      else if WIFSTOPPED st then
        (inl (PtyProcessError
           "Called wait() on a stopped child process. This is not supported. Is some other process attempting job control with our child pid?"),
         logged [Ev c]
           (with_self (set_exitstatus (Some (WEXITSTATUS st))) w1))
      else
        (inr (Some (WEXITSTATUS st)),
         logged [Ev c]
           (with_self (set_exitstatus (Some (WEXITSTATUS st))) w1))
  end.

(** The body of the [try] of [terminate], read as one round per signal:
    send it, wait the grace delay, look whether the child is alive. *)
Fixpoint stages (sigs : list Z) (last : Method bool) : Method bool :=
  match sigs with
  | [] => last
  | sig :: sigs' =>
      kill sig ;;
      d <- gets delayafterterminate ;; call (Sleep d) ;;
      alive <- isalive ;;
      if negb alive then ret true else stages sigs' last
  end.

End Observations.



(** ** A platform and some operating systems to run the model on *)

(** [str.lower] outside ASCII, for the characters the examples use:
    Latin-1, the capital I with a dot above (its lower case is two
    characters long) and the Kelvin sign (its lower case is [k]). *)
Definition linux_lower (s : pystr) : pystr :=
  flat_map (fun c =>
              if c =? 304 then [105; 775]          (* capital I with dot *)
              else if c =? 8490 then [107]         (* Kelvin sign *)
              else if (192 <=? c) && (c <=? 222) && negb (c =? 215)
                   then [c + 32]
              else [ascii_lower c]) s.

Definition linux : Platform := {|
  EIO := 5; ECHILD := 10; EINVAL := 22; ENOTTY := 25; ENXIO := 6;
  WNOHANG := 1;
  SIGHUP := 1; SIGCONT := 18; SIGINT := 2; SIGKILL := 9;
  WIFEXITED := fun st => Z.land st 127 =? 0;
  WIFSIGNALED := fun st =>
    (1 <=? Z.land st 127) && (Z.land st 127 <=? 126);
  WIFSTOPPED := fun st => Z.land st 255 =? 127;
  WEXITSTATUS := fun st => Z.shiftr (Z.land st 65280) 8;
  WTERMSIG := fun st => Z.land st 127;
  ECHO := 8; TCSANOW := 0;
  CHILD := 0; STDIN_FILENO := 0; EX_OSERR := 71;
  unicode_lower := linux_lower |}.

(** Every call succeeds and the child keeps running. *)
Definition calm : Oracle :=
  fun X l c =>
    match c in Call X return Exn + X with
    | Waitpid _ _ => inr (0, 0)
    | Kill _ _ => inr tt
    | Sleep _ => inr tt
    | Clock => inr 0%Q
    | FileRead1 _ => inr [x68; x69]%byte
    | FileReadline => inr [x68; x69; x0a]%byte
    | FileWrite b => inr (Z.of_nat (List.length b))
    | FileFlush => inr tt
    | FileRelease _ => inr tt
    | Isatty _ => inr true
    | Tcgetattr _ => inr (mkTermios 0 0 0 8 0 0 [])
    | Tcsetattr _ _ _ => inr tt
    | IoctlSetWinsize _ _ => inr tt
    | IoctlGetWinsize _ _ => inr (mkWinsize 24 80 0 0)
    | GetIntrEof => inr ([x03]%byte, [x04]%byte)
    | Which command => inr (Some ("/bin/" ++ command)%string)
    | Pipe => inr (3, 4)
    | PtyFork => inr (4242, 5)
    | IoOpen _ _ => inr tt
    | OsClose _ => inr tt
    | FcntlSetCloexec _ => inr tt
    | GetrlimitNofile => inr 1024
    | Closerange _ _ => inr tt
    | Chdir _ => inr tt
    | Preexec => inr tt
    | PickleDump _ _ => inr tt
    | PickleLoad _ => inl (EOFError "Ran out of input")
    | Execv _ _ => inr tt
    | Execvpe _ _ _ => inr tt
    | OsExit _ => inr tt
    end.



(** Somebody else reaps the child: polling finds nothing to report, and a
    blocking [waitpid] finds no child (ECHILD). *)
Definition reaped_elsewhere : Oracle :=
  fun X l c =>
    match c in Call X return Exn + X with
    | Waitpid _ options => if options =? 0 then inl (OSError 10) else inr (0, 0)
    | c' => calm _ l c'
    end.

(** [waitpid] finds no child (ECHILD). *)
Definition no_child : Oracle :=
  fun X l c =>
    match c in Call X return Exn + X with
    | Waitpid _ _ => inl (OSError 10)
    | c' => calm _ l c'
    end.

(** Polling finds nothing to report; the blocking [waitpid] returns the
    status of a stopped child (0x7f). *)
Definition stopped_on_wait : Oracle :=
  fun X l c =>
    match c in Call X return Exn + X with
    | Waitpid p options => if options =? 0 then inr (p, 127) else inr (0, 0)
    | c' => calm _ l c'
    end.

(** The first [waitpid] answers with the wait status [st]. *)
Definition reports (st : Z) : Oracle :=
  fun X l c =>
    match c in Call X return Exn + X with
    | Waitpid p _ => inr (p, st)
    | c' => calm _ l c'
    end.

(** Reading fails with the error [e]. *)
Definition read_fails (e : Exn) : Oracle :=
  fun X l c =>
    match c in Call X return Exn + X with
    | FileRead1 _ => inl e
    | FileReadline => inl e
    | c' => calm _ l c'
    end.

(** Reading finds the stream at its end. *)
Definition read_empty : Oracle :=
  fun X l c =>
    match c in Call X return Exn + X with
    | FileRead1 _ => inr []
    | FileReadline => inr []
    | c' => calm _ l c'
    end.

(** No program of that name is on the search path. *)
Definition nothing_found : Oracle :=
  fun X l c =>
    match c in Call X return Exn + X with
    | Which _ => inr None
    | c' => calm _ l c'
    end.

(** A handle as [__init__] builds it, for pid 4242 on descriptor 5. *)
Definition handle0 : PtyProcess :=
  mkPtyProcess 4242 5 (Some ["/bin/cat"%string]) None None (mkFileObj 5 false)
    false false None None None false (1 # 10) (1 # 10) None.

Definition world0 : World := mkWorld handle0 [].

(** ** More observations *)

(** How often the log asks the operating system about a process: the calls
    of [waitpid] and [kill]. *)
Definition process_calls (l : list Event) : nat :=
  List.length (filter (fun e => match e with
                                | Ev (Waitpid _ _) => true
                                | Ev (Kill _ _) => true
                                | Ev _ => false
                                end) l).

Definition is_process_call {X} (c : Call X) : bool :=
  match c with
  | Waitpid _ _ => true
  | Kill _ _ => true
  | _ => false
  end.

(** From a terminated handle on: it stays terminated, its statuses stay as
    they are, and the operating system is not asked about the process. *)
Definition settled (w w' : World) : Prop :=
  terminated (self w) = true ->
  terminated (self w') = true
  /\ exitstatus (self w') = exitstatus (self w)
  /\ signalstatus (self w') = signalstatus (self w)
  /\ status (self w') = status (self w)
  /\ process_calls (log w') = process_calls (log w).

(** What a handle is given at construction stays as it is. *)
Definition same_identity (w w' : World) : Prop :=
  pid (self w') = pid (self w)
  /\ argv (self w') = argv (self w)
  /\ env (self w') = env (self w)
  /\ cwd (self w') = cwd (self w)
  /\ delayafterclose (self w') = delayafterclose (self w)
  /\ delayafterterminate (self w') = delayafterterminate (self w)
  /\ fo_fd (fileobj (self w')) = fo_fd (fileobj (self w)).

(** [closed], [fd] and the file object are as they were. *)
Definition same_closed_fd (w w' : World) : Prop :=
  closed (self w') = closed (self w)
  /\ fd (self w') = fd (self w)
  /\ fileobj (self w') = fileobj (self w).

(** A closed handle has given up its descriptor. *)
Definition closed_means_released (w : World) : Prop :=
  closed (self w) = true ->
  fd (self w) = -1 /\ fo_closed (fileobj (self w)) = true.

(** From a closed handle on: it stays closed, with the same [fd] and file
    object; and a closed handle has given up its descriptor. *)
Definition closing (w w' : World) : Prop :=
  (closed (self w) = true ->
   closed (self w') = true
   /\ fd (self w') = fd (self w)
   /\ fileobj (self w') = fileobj (self w))
  /\ (closed_means_released w -> closed_means_released w').

(** A terminal that remembers what it was told: [tcgetattr] answers with
    the attributes of the last [tcsetattr] on the descriptor, and the
    window-size query with the last size set on it. *)
Fixpoint last_attr (fd : Z) (l : list Event) (dflt : Termios) : Termios :=
  match l with
  | [] => dflt
  | Ev (Tcsetattr fd' _ attr) :: l' =>
      last_attr fd l' (if fd' =? fd then attr else dflt)
  | _ :: l' => last_attr fd l' dflt
  end.

Fixpoint last_winsize (fd : Z) (l : list Event) (dflt : Winsize) : Winsize :=
  match l with
  | [] => dflt
  | Ev (IoctlSetWinsize fd' ws) :: l' =>
      last_winsize fd l' (if fd' =? fd then ws else dflt)
  | _ :: l' => last_winsize fd l' dflt
  end.

Definition tty : Oracle :=
  fun X l c =>
    match c in Call X return Exn + X with
    | Tcgetattr fd => inr (last_attr fd l (mkTermios 0 0 0 8 0 0 []))
    | IoctlGetWinsize fd _ => inr (last_winsize fd l (mkWinsize 24 80 0 0))
    | c' => calm _ l c'
    end.

(** The terminal refuses [tcgetattr] with the error code [code]. *)
Definition no_tty (code : Z) : Oracle :=
  fun X l c =>
    match c in Call X return Exn + X with
    | Tcgetattr _ => inl (TermiosError code)
    | c' => calm _ l c'
    end.

(** The ranges [os.closerange] was called with, oldest first. *)
Definition closeranges_of (l : list Event) : list (Z * Z) :=
  flat_map (fun e => match e with
                     | Ev (Closerange lo hi) => [(lo, hi)]
                     | Ev _ => []
                     end) l.

(** [os.closerange(lo, hi)] closes the descriptor [n]. *)
Definition closes (range : Z * Z) (n : Z) : Prop :=
  fst range <= n < snd range.

(** The log grew by calls of [closerange] that all have the property [ok],
    and by calls of other kinds. *)
Definition closes_only (ok : Z * Z -> Prop) (l l' : list Event) : Prop :=
  exists ranges,
    closeranges_of l' = closeranges_of l ++ ranges /\ Forall ok ranges.

(** A computation that does not return. *)
Definition never_returns {S A} (m : M S A) : Prop :=
  forall s, exists e, fst (m s) = inl e.

(** A step that returns and closes nothing. *)
Definition quiet {A} (m : M (list Event) A) : Prop :=
  forall l, exists a es, m l = (inr a, l ++ es) /\ closeranges_of es = [].

Section SpawnObservations.

Context {P : Platform} {os : Oracle}.

(** The calls of [spawn] up to the reading of the error pipe, and their
    answers in a parent for which everything went well so far: the program
    was found at [path], the pipe is [(r, wr)], the fork gave the child
    [pid] on the descriptor [fd]. *)
Definition spawn_calls (command : string) (r wr fd : Z) : list Event :=
  [Ev (Which command); Ev Pipe; Ev PtyFork;
   Ev (IoOpen fd "rb"); Ev (IoOpen fd "wb"); Ev (OsClose wr)].

Definition forked (l : list Event) (command path : string)
    (r wr pid fd : Z) : Prop :=
  answer _ l (Which command) = inr (Some path)
  /\ answer _ (l ++ [Ev (Which command)]) Pipe = inr (r, wr)
  /\ answer _ (l ++ [Ev (Which command); Ev Pipe]) PtyFork = inr (pid, fd)
  /\ pid <> CHILD
  /\ answer _ (l ++ [Ev (Which command); Ev Pipe; Ev PtyFork])
       (IoOpen fd "rb") = inr tt
  /\ answer _ (l ++ [Ev (Which command); Ev Pipe; Ev PtyFork;
                     Ev (IoOpen fd "rb")])
       (IoOpen fd "wb") = inr tt
  /\ answer _ (l ++ [Ev (Which command); Ev Pipe; Ev PtyFork;
                     Ev (IoOpen fd "rb"); Ev (IoOpen fd "wb")])
       (OsClose wr) = inr tt.

(** The calls the child branch of [spawn] makes. *)
Definition is_child_call {X} (c : Call X) : bool :=
  match c with
  | IoctlSetWinsize _ _ | Tcgetattr _ | Tcsetattr _ _ _ | OsClose _
  | FcntlSetCloexec _ | GetrlimitNofile | Closerange _ _ | Chdir _
  | Preexec | PickleDump _ _ | Execv _ _ | Execvpe _ _ _ | OsExit _ => true
  | _ => false
  end.

(** The ranges the child closes: the gaps between 2, the descriptors to
    keep in their order, and [max_fd]. *)
Definition child_ranges (pass_fds : list Z) (wr nofile : Z)
  : list (Z * Z) :=
  let spass_fds := sorted_set (pass_fds ++ [wr]) in
  map (fun pair => (fst pair + 1, snd pair))
    (combine (2 :: spass_fds) (spass_fds ++ [Z.min 1048576 nofile])).

End SpawnObservations.

(** The error pipe delivers the exception [e], pickled by the child. *)
Definition child_reports (e : Exn) : Oracle :=
  fun X l c =>
    match c in Call X return Exn + X with
    | PickleLoad _ => inr e
    | c' => calm _ l c'
    end.

(** The fork, seen from the child: every call succeeds. *)
Definition in_child : Oracle :=
  fun X l c =>
    match c in Call X return Exn + X with
    | PtyFork => inr (0, 0)
    | c' => calm _ l c'
    end.

(** ** The control characters of the terminal *)

(** [_get_intr_eof] looks at the interpreter it runs in, not at a handle:
    at the names the [termios] module has, at the two original standard
    streams and at the terminal behind the descriptor they give.  (It is
    wrapped in [functools.cache]; the model is of the body, which runs on
    the first call.) *)
Inductive StdStream : Type :=
| NoStream
    (** [sys.__name__] is [None], or has no [fileno] attribute *)
| Stream (fileno : Exn + Z)
    (** what [stream.fileno()] does *).

Record Interpreter : Type := mkInterpreter {
  termios_V : option (nat * nat);
    (** [(VINTR, VEOF)], when [termios] has both names *)
  sys_stdin : StdStream;
  sys_stdout : StdStream;
  tcgetattr : Z -> nat -> Exn + Termios;
    (** [termios.tcgetattr(fd)], by the number of calls made before *)
  termios_C : option (Z * Z)
    (** [(CINTR, CEOF)], when [termios] has both names *) }.

Definition of_answer {S A} (r : Exn + A) : M S A :=
  match r with
  | inl e => raise e
  | inr a => ret a
  end.

(** [l[i]] for an index that is not negative *)
Definition item {S A} (l : list A) (i : nat) : M S A :=
  match nth_error l i with
  | Some a => ret a
  | None => raise IndexError
  end.

(** [ord(b)] of a [bytes] object *)
Definition ord_bytes {S} (b : bytes) : M S Z :=
  match b with
  | [c] => ret (Z.of_N (Byte.to_N c))
  | _ => raise (TypeError "ord() expected a character")
  end.

Definition is_ImportError (e : Exn) : bool :=
  match e with
  | OtherException name => String.eqb name "ImportError"
  | _ => false
  end.

(** One round of the loop over ["stdin", "stdout"]. *)
Definition stream_fileno {S} (fd : option Z) (stream : StdStream)
  : M S (option Z) :=
  match stream with
  | NoStream => ret fd
  | Stream fileno =>
      try_except (n <- of_answer fileno ;; ret (Some n))
        (fun e => match e with
                  | ValueError _ => Some (ret fd)
                  | _ => None
                  end)
  end.

Definition _get_intr_eof (i : Interpreter) : M unit (bytes * bytes) :=
  ie <- try_except
          (v <- match termios_V i with
                | Some v => ret v
                | None => raise (OtherException "ImportError")
                end ;;
           fd <- stream_fileno None (sys_stdin i) ;;
           fd <- stream_fileno fd (sys_stdout i) ;;
           fd <- match fd with
                 | Some fd => ret fd
                 | None => raise (ValueError "No stream has a fileno")
                 end ;;
           attr <- of_answer (tcgetattr i fd 0) ;;
           c <- item (cc attr) (fst v) ;;
           intr <- ord_bytes c ;;
           attr <- of_answer (tcgetattr i fd 1) ;;
           c <- item (cc attr) (snd v) ;;
           eof <- ord_bytes c ;;
           ret (intr, eof))
          (fun e =>
             if is_ImportError e || is_OSError e
                || match e with
                   | ValueError _ | TermiosError _ => true
                   | _ => false
                   end
             then Some (match termios_C i with
                        | Some c => ret c
                        | None => ret (3, 4)
                        end)
             else None) ;;
  intr <- _byte (fst ie) ;;
  eof <- _byte (snd ie) ;;
  ret (intr, eof).

(** The fallback of [_get_intr_eof]. *)
Definition intr_eof_default (i : Interpreter)
  : (Exn + bytes * bytes) * unit :=
  let ie := match termios_C i with
            | Some c => c
            | None => (3, 4)
            end in
  (intr <- _byte (fst ie) ;; eof <- _byte (snd ie) ;; ret (intr, eof)) tt.

(** A stream that gives no descriptor and lets the loop go on. *)
Definition no_descriptor (stream : StdStream) : Prop :=
  stream = NoStream \/ exists msg, stream = Stream (inl (ValueError msg)).

(** An interpreter on a terminal: both streams are open on it. *)
Definition on_terminal (cc : list bytes) : Interpreter :=
  mkInterpreter (Some (0%nat, 4%nat)) (Stream (inr 0)) (Stream (inr 1))
    (fun fd _ => if fd =? 1 then inr (mkTermios 0 0 0 8 0 0 cc)
                 else inl (TermiosError 25))
    (Some (3, 4)).

(** An interpreter started without a terminal, as by cron. *)
Definition detached : Interpreter :=
  mkInterpreter (Some (0%nat, 4%nat)) (Stream (inr 0)) NoStream
    (fun _ _ => inl (TermiosError 25)) (Some (3, 4)).

(** * Properties *)

Ltac run := unfold bind, ret, raise, gets, modify, call, try_except; cbn.

Section Basics.

Context {S A B : Type}.

Lemma bind_inr (m : M S A) (k : A -> M S B) s a s' :
  m s = (inr a, s') -> bind m k s = k a s'.
Proof. intros E. unfold bind. now rewrite E. Qed.

Lemma try_except_inr (m : M S A) h s a s' :
  m s = (inr a, s') -> try_except m h s = (inr a, s').
Proof. intros E. unfold try_except. now rewrite E. Qed.

Lemma bind_returned (m : M S A) (k : A -> M S B) s b s' :
  bind m k s = (inr b, s') ->
  exists a s1, m s = (inr a, s1) /\ k a s1 = (inr b, s').
Proof.
  unfold bind. destruct (m s) as [[e | a] s1]; [discriminate |]. eauto.
Qed.

End Basics.

(** ** Control characters *)

Section SendControl.

Context {P : Platform} {os : Oracle}.

Lemma byte_then_write (v : Z) (b : byte) (w : World) :
  0 <= v < 256 ->
  Byte.of_N (Z.to_N v) = Some b ->
  (byte <- _byte v ;; n <- _writeb byte true ;; ret (n, byte)) w
  = single_byte_written b w.
Proof.
  intros Hv Hb. unfold _byte.
  replace ((0 <=? v) && (v <? 256)) with true
    by (symmetry; apply andb_true_iff; split;
        [apply Z.leb_le | apply Z.ltb_lt]; lia).
  rewrite Hb. unfold single_byte_written, _writeb, logged. run.
  destruct (answer Z (log w) (FileWrite [b])) as [e | n]; [reflexivity |].
  cbn. rewrite <- app_assoc. cbn.
  destruct (answer unit (log w ++ [Ev (FileWrite [b])]) FileFlush);
    reflexivity.
Qed.

Lemma byte_of_code (v : Z) :
  0 <= v < 256 ->
  exists b, Byte.of_N (Z.to_N v) = Some b /\ Byte.to_N b = Z.to_N v.
Proof.
  intros Hv. destruct (Byte.of_N (Z.to_N v)) as [b |] eqn:E.
  - exists b. split; [reflexivity | now apply Byte.to_of_N].
  - apply Byte.of_N_None_iff in E. lia.
Qed.

Lemma str_lower_ascii (c : Z) :
  0 <= c < 128 -> str_lower [c] = [ascii_lower c].
Proof.
  intros Hc. unfold str_lower. cbn.
  replace ((0 <=? c) && (c <? 128)) with true; [reflexivity |].
  symmetry. apply andb_true_iff. split; [apply Z.leb_le | apply Z.ltb_lt]; lia.
Qed.

Lemma sendcontrol_lowered (c c' : Z) (w : World) :
  str_lower [c] = [c'] ->
  sendcontrol [c] w =
  (if (97 <=? c') && (c' <=? 122) then
     byte <- _byte (c' - 97 + 1) ;; n <- _writeb byte true ;; ret (n, byte)
   else
     match dict_get sendcontrol_d [c'] with
     | None => ret (0, [])
     | Some v => byte <- _byte v ;; n <- _writeb byte true ;; ret (n, byte)
     end) w.
Proof. intros E. unfold sendcontrol. rewrite E. reflexivity. Qed.

Lemma sendcontrol_letter (c c' : Z) (w : World) :
  str_lower [c] = [c'] -> 97 <= c' <= 122 ->
  exists b, Byte.to_N b = Z.to_N (c' - 96)
            /\ sendcontrol [c] w = single_byte_written b w.
Proof.
  intros E Hc. destruct (byte_of_code (c' - 96)) as [b [Hb Hn]]; [lia |].
  exists b. split; [exact Hn |].
  rewrite (sendcontrol_lowered c c' w E).
  replace ((97 <=? c') && (c' <=? 122)) with true
    by (symmetry; apply andb_true_iff; split; apply Z.leb_le; lia).
  replace (c' - 97 + 1) with (c' - 96) by lia.
  apply byte_then_write; [lia | exact Hb].
Qed.

Lemma sendcontrol_alias (c v : Z) (b : byte) (w : World) :
  0 <= c < 128 -> ascii_lower c = c ->
  (97 <=? c) && (c <=? 122) = false ->
  dict_get sendcontrol_d [c] = Some v ->
  0 <= v < 256 -> Byte.of_N (Z.to_N v) = Some b ->
  sendcontrol [c] w = single_byte_written b w.
Proof.
  intros Hc Hl Hr Hd Hv Hb.
  rewrite (sendcontrol_lowered c c w) by (rewrite str_lower_ascii, Hl; auto).
  rewrite Hr, Hd. now apply byte_then_write.
Qed.

Lemma dict_get_unlisted (c : Z) :
  ~ In c (str_of_string "@`[{\|]}^~_?") ->
  dict_get sendcontrol_d [c] = None.
Proof.
  intros H. cbn in H. cbn -[Z.eqb].
  repeat match goal with
         | |- context [?k =? c] =>
             destruct (Z.eqb_spec k c);
             [exfalso; apply H; tauto | cbn -[Z.eqb]]
         end.
  reflexivity.
Qed.

(** C1, as the code has it.  Sent in lower case, a letter a-z goes out as the
    single byte 1-26 of its position; the aliases go out as [@] and backtick
    0, [[] and [{] 27, backslash and [|] 28, []] and [}] 29, [^] and [~] 30,
    [_] 31 and [?] 127; a character whose lower case is one character that
    is neither a letter nor an alias makes no call and returns [(0, b"")]. *)
Theorem sendcontrol_codes (w : World) :
  (forall c, 97 <= c <= 122 ->
     exists b, Byte.to_N b = Z.to_N (c - 96)
               /\ sendcontrol [c] w = single_byte_written b w)
  /\ (sendcontrol (str_of_string "@") w = single_byte_written x00 w
      /\ sendcontrol (str_of_string "`") w = single_byte_written x00 w
      /\ sendcontrol (str_of_string "[") w = single_byte_written x1b w
      /\ sendcontrol (str_of_string "{") w = single_byte_written x1b w
      /\ sendcontrol (str_of_string "\") w = single_byte_written x1c w
      /\ sendcontrol (str_of_string "|") w = single_byte_written x1c w
      /\ sendcontrol (str_of_string "]") w = single_byte_written x1d w
      /\ sendcontrol (str_of_string "}") w = single_byte_written x1d w
      /\ sendcontrol (str_of_string "^") w = single_byte_written x1e w
      /\ sendcontrol (str_of_string "~") w = single_byte_written x1e w
      /\ sendcontrol (str_of_string "_") w = single_byte_written x1f w
      /\ sendcontrol (str_of_string "?") w = single_byte_written x7f w)
  /\ (forall c c',
        str_lower [c] = [c'] ->
        ~ 97 <= c' <= 122 ->
        ~ In c' (str_of_string "@`[{\|]}^~_?") ->
        sendcontrol [c] w = (inr (0, []), w)).
Proof.
  split; [| split].
  - intros c Hc. apply sendcontrol_letter; [| exact Hc].
    rewrite str_lower_ascii by lia. unfold ascii_lower.
    replace ((65 <=? c) && (c <=? 90)) with false; [reflexivity |].
    symmetry. apply andb_false_iff. right. apply Z.leb_gt. lia.
  - repeat split;
      (eapply sendcontrol_alias;
       [cbn; lia | reflexivity | reflexivity | reflexivity | lia
       | reflexivity]).
  - intros c c' E Hl Ha.
    rewrite (sendcontrol_lowered c c' w E).
    replace ((97 <=? c') && (c' <=? 122)) with false.
    + now rewrite dict_get_unlisted.
    + symmetry. apply andb_false_iff.
      destruct (Z.leb_spec 97 c'); [right; apply Z.leb_gt; lia | now left].
Qed.

(** C10.  An upper-case letter A-Z is sent exactly as its lower-case
    letter: the same calls, the same byte, the same returned value. *)
Theorem sendcontrol_upper_as_lower (c : Z) (w : World) :
  65 <= c <= 90 ->
  sendcontrol [c] w = sendcontrol [c + 32] w
  /\ exists b, Byte.to_N b = Z.to_N (c - 64)
               /\ sendcontrol [c] w = single_byte_written b w.
Proof.
  intros Hc.
  assert (E : str_lower [c] = [c + 32]).
  { rewrite str_lower_ascii by lia. unfold ascii_lower.
    replace ((65 <=? c) && (c <=? 90)) with true; [reflexivity |].
    symmetry. apply andb_true_iff. split; apply Z.leb_le; lia. }
  assert (E' : str_lower [c + 32] = [c + 32]).
  { rewrite str_lower_ascii by lia. unfold ascii_lower.
    replace ((65 <=? c + 32) && (c + 32 <=? 90)) with false; [reflexivity |].
    symmetry. apply andb_false_iff. right. apply Z.leb_gt. lia. }
  split.
  - now rewrite (sendcontrol_lowered c _ w E),
      (sendcontrol_lowered (c + 32) _ w E').
  - destruct (sendcontrol_letter c (c + 32) w E) as [b [Hb Hs]]; [lia |].
    exists b. split; [| exact Hs].
    rewrite Hb. f_equal. lia.
Qed.

End SendControl.

Lemma sendcontrol_codes_witness :
  (97 <= 99 <= 122
   /\ exists b, Byte.to_N b = Z.to_N (99 - 96)
                /\ sendcontrol (P := linux) (os := calm) [99] world0
                   = single_byte_written (os := calm) b world0)
  /\ (str_lower (P := linux) [57] = [57]
      /\ ~ 97 <= 57 <= 122
      /\ ~ In 57 (str_of_string "@`[{\|]}^~_?")
      /\ sendcontrol (P := linux) (os := calm) [57] world0
         = (inr (0, []), world0)).
Proof.
  assert (H9 : ~ In 57 (str_of_string "@`[{\|]}^~_?")).
  { cbn. intros H. repeat (destruct H as [H | H]; [discriminate H |]).
    exact H. }
  destruct (sendcontrol_codes (P := linux) (os := calm) world0)
    as [letters [_ others]].
  split.
  - split; [lia | apply letters; lia].
  - split; [reflexivity |]. split; [lia |]. split; [exact H9 |].
    apply (others 57 57); [reflexivity | lia | exact H9].
Defined.

(** Some runs: [c], [a], [[] and the unmapped [9]. *)
Lemma sendcontrol_examples :
  fst (sendcontrol (P := linux) (os := calm) (str_of_string "c") world0)
  = inr (1, [x03])
  /\ fst (sendcontrol (P := linux) (os := calm) (str_of_string "a") world0)
     = inr (1, [x01])
  /\ fst (sendcontrol (P := linux) (os := calm) (str_of_string "[") world0)
     = inr (1, [x1b])
  /\ sendcontrol (P := linux) (os := calm) (str_of_string "9") world0
     = (inr (0, []), world0).
Proof. repeat split. Qed.

(** A character whose lower case is two characters long does not reach the
    table: [ord] raises. *)
Lemma sendcontrol_two_character_lower_case :
  exists msg,
    sendcontrol (P := linux) (os := calm) [304] world0
    = (inl (TypeError msg), world0).
Proof. eexists. reflexivity. Qed.

(** C1 as worded fails on [_]: the byte sent is 31 (0x1f), not 127. *)
Lemma sendcontrol_underscore_sends_31 :
  sendcontrol (P := linux) (os := calm) (str_of_string "_") world0
  = (inr (1, [x1f]), logged [Ev (FileWrite [x1f]); Ev FileFlush] world0)
  /\ sendcontrol (P := linux) (os := calm) (str_of_string "_") world0
     <> single_byte_written (os := calm) x7f world0.
Proof.
  split; [reflexivity |].
  intros H. apply (f_equal fst) in H. cbv in H. discriminate H.
Qed.

Lemma sendcontrol_upper_as_lower_witness :
  65 <= 67 <= 90
  /\ sendcontrol (P := linux) (os := calm) [67] world0
     = sendcontrol (P := linux) (os := calm) [67 + 32] world0
  /\ exists b, Byte.to_N b = Z.to_N (67 - 64)
               /\ sendcontrol (P := linux) (os := calm) [67] world0
                  = single_byte_written (os := calm) b world0.
Proof.
  split; [lia |].
  apply (sendcontrol_upper_as_lower (P := linux) (os := calm) 67 world0).
  lia.
Defined.

(** ** Reading *)

Section Reading.

Context {P : Platform} {os : Oracle}.

Lemma read_normalises_eof (size : Z) :
  normalises_eof (read size) (FileRead1 size).
Proof.
  intros w reply. subst reply. unfold read, logged, with_self. run.
  repeat split.
  - intros [E | E]; rewrite E; cbn.
    + rewrite Z.eqb_refl. cbn. eauto.
    + eauto.
  - intros e Hne E. rewrite E.
    destruct e; cbn; try reflexivity.
    destruct (Z.eqb_spec errno EIO); [congruence | reflexivity].
  - intros s Hs E. rewrite E. destruct s; [congruence | reflexivity].
Qed.

Lemma readline_normalises_eof :
  normalises_eof readline FileReadline.
Proof.
  intros w reply. subst reply. unfold readline, logged, with_self. run.
  repeat split.
  - intros [E | E]; rewrite E; cbn.
    + rewrite Z.eqb_refl. cbn. eauto.
    + eauto.
  - intros e Hne E. rewrite E.
    destruct e; cbn; try reflexivity.
    destruct (Z.eqb_spec errno EIO); [congruence | reflexivity].
  - intros s Hs E. rewrite E. destruct s; [congruence | reflexivity].
Qed.

(** C2.  [read] and [readline] ask the file object once.  When that call
    fails with the OS error EIO, or returns no bytes, [flag_eof] is set and
    [EOFError] is raised; any other exception of the call, so any OS error
    with another code, reaches the caller as it is; otherwise the bytes
    the call returned are returned, however few. *)
Theorem read_and_readline_normalise_eof :
  (forall size, normalises_eof (read size) (FileRead1 size))
  /\ normalises_eof readline FileReadline.
Proof. split; [apply read_normalises_eof | apply readline_normalises_eof]. Qed.

End Reading.

Lemma read_and_readline_normalise_eof_witness :
  (exists msg,
     read (P := linux) (os := read_fails (OSError 5)) 1024 world0
     = (inl (EOFError msg),
        logged [Ev (FileRead1 1024)] (with_self (set_flag_eof true) world0)))
  /\ (exists msg,
        readline (P := linux) (os := read_empty) world0
        = (inl (EOFError msg),
           logged [Ev FileReadline] (with_self (set_flag_eof true) world0)))
  /\ read (P := linux) (os := read_fails (OSError 4)) 1024 world0
     = (inl (OSError 4), logged [Ev (FileRead1 1024)] world0)
  /\ read (P := linux) (os := calm) 1024 world0
     = (inr [x68; x69], logged [Ev (FileRead1 1024)] world0).
Proof.
  split; [| split; [| split]].
  - destruct (read_and_readline_normalise_eof
                (P := linux) (os := read_fails (OSError 5))) as [H _].
    destruct (H 1024 world0) as [Heof _]. apply Heof. left. reflexivity.
  - destruct (read_and_readline_normalise_eof
                (P := linux) (os := read_empty)) as [_ H].
    destruct (H world0) as [Heof _]. apply Heof. right. reflexivity.
  - destruct (read_and_readline_normalise_eof
                (P := linux) (os := read_fails (OSError 4))) as [H _].
    destruct (H 1024 world0) as [_ [Herr _]].
    apply Herr; [discriminate | reflexivity].
  - destruct (read_and_readline_normalise_eof
                (P := linux) (os := calm)) as [H _].
    destruct (H 1024 world0) as [_ [_ Hok]].
    apply Hok; [discriminate | reflexivity].
Defined.

(** ** Spawning *)

Section Spawn.

Context {P : Platform} {os : Oracle}.

(** C8.  Given something that is neither a list nor a tuple, [spawn] raises
    [TypeError] without a single call; given a program that the search path
    does not resolve, it raises the command-not-found error
    ([FileNotFoundError]) after the look-up and nothing else.  Neither run
    opens the pipe, forks, or opens the descriptor. *)
Theorem spawn_fails_before_allocating
    (cwd : option string) (env : option (list (string * string)))
    (echo preexec_fn : bool) (dimensions : Z * Z) (pass_fds : list Z)
    (l : list Event) :
  (forall repr,
     exists msg,
       spawn (ArgvOther repr) cwd env echo preexec_fn dimensions pass_fds l
       = (inl (TypeError msg), l))
  /\ (forall argv command rest,
        argv = ArgvList (command :: rest)
        \/ argv = ArgvTuple (command :: rest) ->
        answer _ l (Which command) = inr None ->
        exists msg,
          spawn argv cwd env echo preexec_fn dimensions pass_fds l
          = (inl (FileNotFoundError msg), l ++ [Ev (Which command)])).
Proof.
  split.
  - intros repr. eexists. reflexivity.
  - intros argv command rest [-> | ->] E; unfold spawn; run; rewrite E;
      eexists; reflexivity.
Qed.

End Spawn.

Lemma spawn_fails_before_allocating_witness :
  exists msg,
    spawn (P := linux) (os := nothing_found)
      (ArgvList ["no-such-program"%string]) None None true false (24, 80) [] []
    = (inl (FileNotFoundError msg), [Ev (Which "no-such-program")]).
Proof.
  destruct (spawn_fails_before_allocating
              (P := linux) (os := nothing_found)
              None None true false (24, 80) [] []) as [_ H].
  apply (H (ArgvList ["no-such-program"%string]) "no-such-program"%string []).
  - left. reflexivity.
  - reflexivity.
Defined.

(** ** Liveness *)

Section LivenessCases.

Context {P : Platform} {os : Oracle}.

Lemma with_self_logged f es (w : World) :
  with_self f (logged es w) = logged es (with_self f w).
Proof. reflexivity. Qed.

Lemma waitpid_or_no_child_run msg p o (w : World) :
  waitpid_or_no_child msg p o w =
  (match answer _ (log w) (Waitpid p o) with
   | inl e => if errno_is e ECHILD then inl (PtyProcessError msg) else inl e
   | inr r => inr r
   end, logged [Ev (Waitpid p o)] w).
Proof.
  unfold waitpid_or_no_child, logged. run.
  destruct (answer (Z * Z) (log w) (Waitpid p o)) as [e | r]; [| reflexivity].
  destruct e; cbn; try reflexivity.
  destruct (errno =? ECHILD); reflexivity.
Qed.

Lemma isalive_decode_run p st (w : World) :
  p <> 0 ->
  isalive_decode (p, st) w =
  if WIFEXITED st then (inr false, with_self (record_exit st) w)
  else if WIFSIGNALED st then (inr false, with_self (record_signal st) w)
  else if WIFSTOPPED st then
    (inl (PtyProcessError
      "isalive() encountered condition where child process is stopped. This is not supported. Is some other process attempting job control with our child pid?"), w)
  else (inr false, w).
Proof.
  intros Hp. unfold isalive_decode.
  destruct (Z.eqb_spec p 0); [contradiction |].
  destruct (WIFEXITED st); [reflexivity |].
  destruct (WIFSIGNALED st); [reflexivity |].
  destruct (WIFSTOPPED st); reflexivity.
Qed.

Lemma errno_is_ECHILD e : errno_is e ECHILD = true -> e = OSError ECHILD.
Proof.
  destruct e; cbn; try discriminate.
  intros H. apply Z.eqb_eq in H. congruence.
Qed.

Lemma errno_not_ECHILD e : errno_is e ECHILD = false -> e <> OSError ECHILD.
Proof. intros H ->. cbn in H. rewrite Z.eqb_refl in H. discriminate. Qed.

Lemma decoded_run (w w1 : World) p st :
  terminated (self w) = false ->
  self w1 = self w ->
  probe_answer w = inr (p, st) -> p <> 0 ->
  log w1 = log w ++ probe_calls w ->
  isalive_run w (isalive_decode (p, st) w1).
Proof.
  intros Ht Hs Hp Hn Hl.
  assert (E : w1 = logged (probe_calls w) w).
  { destruct w1, w; cbn in *. unfold logged; cbn. congruence. }
  rewrite isalive_decode_run by exact Hn. rewrite E, !with_self_logged.
  destruct (WIFEXITED st) eqn:E1.
  { eapply alive_exited; eauto. }
  destruct (WIFSIGNALED st) eqn:E2.
  { eapply alive_signaled; eauto. }
  destruct (WIFSTOPPED st) eqn:E3.
  { eapply alive_stopped; eauto. repeat split; auto. }
  eapply alive_unclassified; eauto.
Qed.

(** Every run of [isalive] is one of the cases of [isalive_run]. *)
Lemma isalive_cases (w : World) : isalive_run w (isalive w).
Proof.
  unfold isalive.
  destruct (terminated (self w)) eqn:Ht.
  { unfold bind, gets. rewrite Ht. apply alive_terminated, Ht. }
  unfold bind at 1. unfold gets at 1. rewrite Ht.
  unfold bind at 1. unfold gets at 1.
  unfold bind at 1. unfold gets at 1.
  unfold bind at 1. rewrite waitpid_or_no_child_run.
  set (c := Waitpid (pid (self w)) (if flag_eof (self w) then 0 else WNOHANG)).
  assert (Hc : probe_calls w
               = match answer _ (log w) c with
                 | inr (0, _) => [Ev c; Ev c]
                 | _ => [Ev c]
                 end) by reflexivity.
  assert (Ha : probe_answer w
               = match answer _ (log w) c with
                 | inr (0, _) => answer _ (log w ++ [Ev c]) c
                 | r => r
                 end) by reflexivity.
  destruct (answer (Z * Z) (log w) c) as [e | [p st]] eqn:E1.
  { destruct (errno_is e ECHILD) eqn:Ee; rewrite <- Hc.
    - apply errno_is_ECHILD in Ee. subst e. now apply alive_no_child.
    - apply errno_not_ECHILD in Ee. now apply alive_failed. }
  cbn [fst]. destruct (Z.eqb_spec p 0) as [-> | Hp].
  2:{ assert (Hc' : probe_calls w = [Ev c])
        by (rewrite Hc; destruct p; try reflexivity; contradiction).
      assert (Ha' : probe_answer w = inr (p, st))
        by (rewrite Ha; destruct p; try reflexivity; contradiction).
      apply decoded_run; auto. now rewrite Hc'. }
  cbn in Hc.
  unfold bind at 1. unfold gets at 1.
  unfold bind at 1. rewrite waitpid_or_no_child_run. cbn [self logged log].
  fold c.
  destruct (answer (Z * Z) (log w ++ [Ev c]) c) as [e | [p2 st2]] eqn:E2.
  { destruct (errno_is e ECHILD) eqn:Ee; unfold logged; cbn [self log];
      rewrite <- app_assoc; cbn [app]; rewrite <- Hc.
    - apply errno_is_ECHILD in Ee. subst e. now apply alive_no_child.
    - apply errno_not_ECHILD in Ee. now apply alive_failed. }
  cbn [fst]. destruct (Z.eqb_spec p2 0) as [-> | Hp2].
  { unfold ret, logged; cbn [self log]. rewrite <- app_assoc. cbn [app].
    rewrite <- Hc. now apply alive_no_status with (st := st2). }
  apply decoded_run; auto. unfold logged; cbn [self log].
  rewrite <- app_assoc. now rewrite Hc.
Qed.

End LivenessCases.

(** Case analysis on a run of [isalive]. *)
Ltac isalive_inv w :=
  let H := fresh "Hrun" in
  pose proof (isalive_cases w) as H;
  inversion H; subst; clear H.

Section Liveness.

Context {P : Platform} {os : Oracle}.

Lemma isalive_log (w : World) :
  terminated (self w) = false ->
  log (after isalive w) = log w ++ probe_calls w.
Proof.
  intros Ht. unfold after. isalive_inv w; try reflexivity. congruence.
Qed.

Lemma isalive_true (w w1 : World) :
  isalive w = (inr true, w1) ->
  terminated (self w) = false /\ w1 = logged (probe_calls w) w.
Proof.
  intros E. isalive_inv w;
    match goal with
    | E' : _ = isalive w |- _ => rewrite E in E'; inversion E'; subst
    end.
  split; [assumption | reflexivity].
Qed.

(** C4.  A handle already terminated answers [False] and makes no call.
    Otherwise [isalive] calls [waitpid] with [WNOHANG] when [flag_eof] is
    false and with no option (blocking) when it is true; when that call
    reports pid 0 the same call is made once more, and never a third time;
    with pid 0 again the answer is [True] and the handle is unchanged. *)
Theorem isalive_waits (w : World) :
  (terminated (self w) = true -> isalive w = (inr false, w))
  /\ (terminated (self w) = false ->
      let c := Waitpid (pid (self w))
                 (if flag_eof (self w) then 0 else WNOHANG) in
      (forall st, answer _ (log w) c = inr (0, st) ->
         log (after isalive w) = log w ++ [Ev c; Ev c]
         /\ forall st', answer _ (log w ++ [Ev c]) c = inr (0, st') ->
              isalive w = (inr true, logged [Ev c; Ev c] w))
      /\ ((forall st, answer _ (log w) c <> inr (0, st)) ->
          log (after isalive w) = log w ++ [Ev c])).
Proof.
  split.
  - intros Ht. unfold isalive, bind, gets. now rewrite Ht.
  - intros Ht c.
    assert (Hc : probe_calls w
                 = match answer _ (log w) c with
                   | inr (0, _) => [Ev c; Ev c]
                   | _ => [Ev c]
                   end) by reflexivity.
    assert (Ha : probe_answer w
                 = match answer _ (log w) c with
                   | inr (0, _) => answer _ (log w ++ [Ev c]) c
                   | r => r
                   end) by reflexivity.
    split.
    + intros st E. rewrite E in Hc, Ha. split.
      * rewrite isalive_log by exact Ht. now rewrite Hc.
      * intros st' E'. rewrite E' in Ha. rewrite <- Hc.
        isalive_inv w; try congruence;
          match goal with
          | E0 : probe_answer w = inr (?p, _), N : ?p <> 0 |- _ =>
              rewrite Ha in E0; inversion E0; subst; contradiction
          | _ => idtac
          end.
    + intros Hno. rewrite isalive_log by exact Ht. rewrite Hc.
      destruct (answer (Z * Z) (log w) c) as [e | [p st]] eqn:E;
        [reflexivity |].
      destruct p; try reflexivity. now elim (Hno st).
Qed.

End Liveness.

Lemma isalive_waits_witness :
  isalive (P := linux) (os := calm)
    (with_self (set_terminated true) world0)
  = (inr false, with_self (set_terminated true) world0)
  /\ log (after (isalive (P := linux) (os := calm)) world0)
     = [Ev (Waitpid 4242 1); Ev (Waitpid 4242 1)]
  /\ isalive (P := linux) (os := calm) world0
     = (inr true, logged [Ev (Waitpid 4242 1); Ev (Waitpid 4242 1)] world0)
  /\ log (after (isalive (P := linux) (os := reports 9))
            (with_self (set_flag_eof true) world0))
     = [Ev (Waitpid 4242 0)].
Proof.
  split; [| split; [| split]].
  - apply (isalive_waits (P := linux) (os := calm)). reflexivity.
  - destruct (isalive_waits (P := linux) (os := calm) world0) as [_ H].
    destruct (H eq_refl) as [Hretry _].
    apply (Hretry 0). reflexivity.
  - destruct (isalive_waits (P := linux) (os := calm) world0) as [_ H].
    destruct (H eq_refl) as [Hretry _].
    destruct (Hretry 0 eq_refl) as [_ Halive].
    apply (Halive 0). reflexivity.
  - destruct (isalive_waits (P := linux) (os := reports 9)
                (with_self (set_flag_eof true) world0)) as [_ H].
    destruct (H eq_refl) as [_ Honce].
    apply Honce. intros st E. discriminate E.
Defined.

(** ** What every operation keeps *)

Section Frames.

Context {P : Platform} {os : Oracle}.
Context {R : World -> World -> Prop} {R_pre : PreOrder R}.

Lemma keeps_ret A (a : A) : keeps R (ret a).
Proof. intros w. reflexivity. Qed.

Lemma keeps_raise A e : keeps R (@raise World A e).
Proof. intros w. reflexivity. Qed.

Lemma keeps_gets A (f : PtyProcess -> A) : keeps R (gets f).
Proof. intros w. reflexivity. Qed.

Lemma keeps_bind A B (m : Method A) (k : A -> Method B) :
  keeps R m -> (forall a, keeps R (k a)) -> keeps R (bind m k).
Proof.
  intros Hm Hk w. unfold bind. specialize (Hm w).
  destruct (m w) as [[e | a] w1]; cbn in *; [exact Hm |].
  etransitivity; [exact Hm | apply Hk].
Qed.

Lemma keeps_try A (m : Method A) h :
  keeps R m ->
  (forall e, match h e with Some h' => keeps R h' | None => True end) ->
  keeps R (try_except m h).
Proof.
  intros Hm Hh w. unfold try_except. specialize (Hm w).
  destruct (m w) as [[e | a] w1]; cbn in *; [| exact Hm].
  specialize (Hh e). destruct (h e) as [h' |]; [| exact Hm].
  etransitivity; [exact Hm | apply Hh].
Qed.

Ltac keeps_step :=
  match goal with
  | |- keeps _ (bind _ _) => apply keeps_bind; [| intros ?]
  | |- keeps _ (ret _) => apply keeps_ret
  | |- keeps _ (raise _) => apply keeps_raise
  | |- keeps _ (gets _) => apply keeps_gets
  | |- keeps _ (try_except _ _) => apply keeps_try; [| intros ?; cbv beta]
  | |- keeps _ (if ?b then _ else _) => destruct b
  | |- keeps _ (match ?x with _ => _ end) => destruct x
  | |- keeps _ (let (_, _) := ?x in _) => destruct x
  | |- match (if ?b then _ else _) with _ => _ end => destruct b
  | |- match (match ?x with _ => _ end) with _ => _ end => destruct x
  | |- True => exact I
  | H : forall X (c : Call X), is_release c = false -> keeps _ (call c)
    |- keeps _ (call _) => apply H; reflexivity
  | |- keeps _ _ => solve [auto]
  end.

Ltac keeps_all := repeat keeps_step.

Section StatusSetters.

Hypothesis R_call :
  forall X (c : Call X), is_release c = false -> keeps R (call c).
Hypothesis R_status : forall v, keeps R (modify (set_status v)).
Hypothesis R_exitstatus : forall v, keeps R (modify (set_exitstatus v)).
Hypothesis R_signalstatus : forall v, keeps R (modify (set_signalstatus v)).
Hypothesis R_terminated : keeps R (modify (set_terminated true)).

Lemma keeps_isalive : keeps R isalive.
Proof.
  unfold isalive, waitpid_or_no_child, isalive_decode. keeps_all.
Qed.

Lemma keeps_wait : keeps R wait.
Proof.
  pose proof keeps_isalive. unfold wait. keeps_all.
Qed.

End StatusSetters.

Section Operations.

Hypothesis R_call :
  forall X (c : Call X), is_release c = false -> keeps R (call c).
Hypothesis R_fd : forall v, keeps R (modify (set_fd v)).
Hypothesis R_closed : keeps R (modify (set_closed true)).
Hypothesis R_echo : forall v, keeps R (modify (set_echo v)).
Hypothesis R_flag_eof : keeps R (modify (set_flag_eof true)).
Hypothesis R_isalive : keeps R isalive.
Hypothesis R_wait : keeps R wait.
Hypothesis R_fileobj_close : keeps R fileobj_close.

Lemma keeps_kill sig : keeps R (kill sig).
Proof. unfold kill. keeps_all. Qed.

Lemma keeps_terminate force : keeps R (terminate force).
Proof.
  pose proof keeps_kill.
  unfold terminate, terminate_signals, terminate_last_attempt. keeps_all.
Qed.

Lemma keeps_close force : keeps R (close force).
Proof.
  pose proof keeps_terminate. unfold close, flush. keeps_all.
Qed.

Lemma keeps_getecho : keeps R getecho.
Proof. unfold getecho. keeps_all. Qed.

Lemma keeps_waitnoecho timeout fuel : keeps R (waitnoecho timeout fuel).
Proof.
  pose proof keeps_getecho.
  unfold waitnoecho. destruct timeout as [timeout |].
  - keeps_step; [keeps_all |]. generalize timeout at 2.
    induction fuel as [| fuel IH]; intros t; cbn [waitnoecho_until];
      keeps_all.
  - induction fuel as [| fuel IH]; cbn [waitnoecho_forever]; keeps_all.
Qed.

Lemma keeps_writeb b flush : keeps R (_writeb b flush).
Proof. unfold _writeb. keeps_all. Qed.

Lemma keeps_sendcontrol char : keeps R (sendcontrol char).
Proof.
  pose proof keeps_writeb.
  unfold sendcontrol, ord, _byte. keeps_all.
Qed.

Lemma keeps_read size : keeps R (read size).
Proof. unfold read. keeps_all. Qed.

Lemma keeps_readline : keeps R readline.
Proof. unfold readline. keeps_all. Qed.

Lemma keeps_after A (m : Method A) : keeps R m -> forall w, R w (after m w).
Proof. intros H w. apply H. Qed.

(** Every operation of the class keeps [R]. *)
Lemma keeps_run_op (op : Op) (w : World) : R w (run_op op w).
Proof.
  pose proof keeps_close. pose proof keeps_terminate. pose proof keeps_kill.
  pose proof keeps_getecho. pose proof keeps_waitnoecho.
  pose proof keeps_writeb. pose proof keeps_sendcontrol.
  pose proof keeps_read. pose proof keeps_readline.
  destruct op as [force | | | | | timeout fuel | | state | size | | s fl
                 | char | | | | force | | | sig | | rows cols];
    cbn [run_op]; apply keeps_after;
    unfold __del__, fileno, flush, isatty, setecho, _setecho, write,
      sendeof, sendintr, eof, getwinsize, setwinsize, _setwinsize,
      struct_pack_HHHH;
    keeps_all.
Qed.

Lemma keeps_run_ops (ops : list Op) (w : World) : R w (run_ops ops w).
Proof.
  revert w. induction ops as [| op ops IH]; intros w; cbn.
  - reflexivity.
  - etransitivity; [apply (keeps_run_op op) | apply IH].
Qed.

End Operations.
End Frames.

#[export] Instance preserves_PreOrder I : PreOrder (preserves I).
Proof. split; [intros w H; exact H | intros a b c H1 H2 H; auto]. Qed.

#[export] Instance eof_sticky_PreOrder : PreOrder eof_sticky.
Proof. split; [intros w H; exact H | intros a b c H1 H2 H; auto]. Qed.

Section Sticky.

Context {P : Platform} {os : Oracle}.

Lemma eof_sticky_call X (c : Call X) : keeps eof_sticky (call c).
Proof. intros w H. exact H. Qed.

Lemma eof_sticky_modify f :
  (forall h, flag_eof h = true -> flag_eof (f h) = true) ->
  keeps eof_sticky (modify f).
Proof. intros Hf w H. cbn. auto. Qed.

Lemma eof_sticky_fileobj_close : keeps eof_sticky fileobj_close.
Proof.
  unfold fileobj_close.
  apply keeps_bind; [apply keeps_gets | intros fo].
  destruct (fo_closed fo); [apply keeps_ret |].
  apply keeps_bind; [now apply eof_sticky_modify | intros _].
  apply eof_sticky_call.
Qed.

Lemma eof_sticky_run_ops ops w : eof_sticky w (run_ops ops w).
Proof.
  apply keeps_run_ops;
    try (intros; apply eof_sticky_call);
    try (intros; now apply eof_sticky_modify).
  - apply keeps_isalive;
      try (intros; apply eof_sticky_call);
      (intros; now apply eof_sticky_modify).
  - apply keeps_wait;
      try (intros; apply eof_sticky_call);
      (intros; now apply eof_sticky_modify).
  - apply eof_sticky_fileobj_close.
Qed.
End Sticky.

(** ** Exit status and signal status *)

Section Waiting.
Context {P : Platform} {os : Oracle}.

Lemma wait_run (w : World) :
  wait w =
  match isalive w with
  | (inr true, w1) => wait_outcome w1
  | (inr false, w1) => (inr (exitstatus (self w1)), w1)
  | (inl e, w1) => (inl e, w1)
  end.
Proof.
  unfold wait. unfold bind at 1.
  destruct (isalive w) as [[e | [|]] w1]; try reflexivity.
  unfold wait_outcome, logged, with_self. run.
  destruct (answer (Z * Z) (log w1) (Waitpid (pid (self w1)) 0))
    as [e | [r st]]; [reflexivity |].
  cbn. destruct (WIFEXITED st); [reflexivity |].
  destruct (WIFSIGNALED st); [reflexivity |].
  destruct (WIFSTOPPED st); reflexivity.
Qed.

Lemma exit_settled_isalive : keeps (preserves exit_settled) isalive.
Proof.
  intros w Hw. isalive_inv w; unfold exit_settled in *; cbn in *; auto;
    intros _; [left | right]; split; congruence.
Qed.

Lemma exit_settled_wait : keeps (preserves exit_settled) wait.
Proof.
  intros w Hw. rewrite wait_run.
  pose proof (exit_settled_isalive w Hw) as Hi.
  destruct (isalive w) as [[e | [|]] w1] eqn:E; cbn in Hi; auto.
  apply isalive_true in E. destruct E as [Ht ->].
  unfold wait_outcome.
  destruct (answer _ _ _) as [e | [r st]]; cbn; [intros H; cbn in H; congruence |].
  destruct (WIFEXITED st); [intros _; left; split; cbn; congruence |].
  destruct (WIFSIGNALED st); [intros _; right; split; cbn; congruence |].
  destruct (WIFSTOPPED st); intros H; cbn in H; congruence.
Qed.
End Waiting.

Section Exit.
Context {P : Platform} {os : Oracle}.

Lemma exit_settled_call X (c : Call X) :
  keeps (preserves exit_settled) (call c).
Proof. intros w H. exact H. Qed.

Lemma exit_settled_modify f :
  (forall h, terminated (f h) = terminated h
             /\ exitstatus (f h) = exitstatus h
             /\ signalstatus (f h) = signalstatus h) ->
  keeps (preserves exit_settled) (modify f).
Proof.
  intros Hf w H. unfold exit_settled in *. cbn.
  destruct (Hf (self w)) as [-> [-> ->]]. exact H.
Qed.

Lemma exit_settled_fileobj_close :
  keeps (preserves exit_settled) fileobj_close.
Proof.
  unfold fileobj_close.
  apply keeps_bind; [apply keeps_gets | intros fo].
  destruct (fo_closed fo); [apply keeps_ret |].
  apply keeps_bind; [now apply exit_settled_modify | intros _].
  apply exit_settled_call.
Qed.

Lemma exit_settled_run_ops ops w :
  exit_settled w -> exit_settled (run_ops ops w).
Proof.
  apply (keeps_run_ops (R := preserves exit_settled));
    try (intros; apply exit_settled_call);
    try (intros; now apply exit_settled_modify).
  - apply exit_settled_isalive.
  - apply exit_settled_wait.
  - apply exit_settled_fileobj_close.
Qed.

Lemma init_run pid0 fd0 argv0 env0 cwd0 l h l' :
  __init__ pid0 fd0 argv0 env0 cwd0 l = (inr h, l') ->
  h = mkPtyProcess pid0 fd0 argv0 env0 cwd0 (mkFileObj fd0 false)
        false false None None None false (1 # 10) (1 # 10) None
  /\ l' = l ++ [Ev (IoOpen fd0 "rb"); Ev (IoOpen fd0 "wb")].
Proof.
  unfold __init__. run.
  destruct (answer unit l (IoOpen fd0 "rb")); [discriminate |].
  cbn. destruct (answer unit _ (IoOpen fd0 "wb")); [discriminate |].
  cbn. rewrite <- app_assoc. intros E. inversion E. auto.
Qed.

(** C3.  On a handle made by [__init__], after any operations of the class,
    a true [terminated] comes with exactly one of [exitstatus] and
    [signalstatus]: never both, never neither.  A wait status of a normal
    exit, decoded by [isalive] or [wait], sets [exitstatus] and clears
    [signalstatus]; one of a death by signal sets [signalstatus] and clears
    [exitstatus]. *)
Theorem exit_or_signal_status :
  (forall pid0 fd0 argv0 env0 cwd0 l h l' ops,
     __init__ pid0 fd0 argv0 env0 cwd0 l = (inr h, l') ->
     let w := run_ops ops (mkWorld h l') in
     terminated (self w) = true ->
     exactly_one (exitstatus (self w)) (signalstatus (self w)))
  /\ (forall w p st,
        terminated (self w) = false ->
        probe_answer w = inr (p, st) -> p <> 0 ->
        let h := self (after isalive w) in
        (WIFEXITED st = true ->
           terminated h = true
           /\ exitstatus h = Some (WEXITSTATUS st) /\ signalstatus h = None)
        /\ (WIFEXITED st = false -> WIFSIGNALED st = true ->
              terminated h = true
              /\ exitstatus h = None
              /\ signalstatus h = Some (WTERMSIG st)))
  /\ (forall w w1 r st,
        isalive w = (inr true, w1) ->
        answer _ (log w1) (Waitpid (pid (self w1)) 0) = inr (r, st) ->
        let h := self (after wait w) in
        (WIFEXITED st = true ->
           terminated h = true
           /\ exitstatus h = Some (WEXITSTATUS st) /\ signalstatus h = None)
        /\ (WIFEXITED st = false -> WIFSIGNALED st = true ->
              terminated h = true
              /\ exitstatus h = None
              /\ signalstatus h = Some (WTERMSIG st))).
Proof.
  split; [| split].
  - intros pid0 fd0 argv0 env0 cwd0 l h l' ops E w.
    apply exit_settled_run_ops. destruct (init_run _ _ _ _ _ _ _ _ E) as [-> _].
    intros H. cbn in H. discriminate H.
  - intros w p st Ht Ha Hp h. subst h. unfold after.
    isalive_inv w; try congruence;
      match goal with
      | E : probe_answer w = inr _ |- _ =>
          rewrite Ha in E; inversion E; subst
      end; cbn; split; intros; try congruence; auto.
    + match goal with S : stopped_status _ |- _ => destruct S as [? [? ?]] end.
      congruence.
    + match goal with S : stopped_status _ |- _ => destruct S as [? [? ?]] end.
      congruence.
  - intros w w1 r st E Ha h. subst h. unfold after.
    rewrite wait_run, E. unfold wait_outcome. rewrite Ha.
    destruct (WIFEXITED st); [cbn; split; intros; [auto | congruence] |].
    destruct (WIFSIGNALED st); [cbn; split; intros; [congruence | auto] |].
    destruct (WIFSTOPPED st); cbn; split; intros; congruence.
Qed.

End Exit.

Lemma exit_or_signal_status_witness :
  let w := run_ops (P := linux) (os := reports 9) [OpIsalive; OpWait]
             (mkWorld (mkPtyProcess 4242 5 None None None
                         (mkFileObj 5 false) false false None None None
                         false (1 # 10) (1 # 10) None)
                [Ev (IoOpen 5 "rb"); Ev (IoOpen 5 "wb")]) in
  exactly_one (exitstatus (self w)) (signalstatus (self w))
  /\ signalstatus (self w) = Some 9.
Proof.
  split; [| reflexivity].
  destruct (exit_or_signal_status (P := linux) (os := reports 9))
    as [H _].
  apply (H 4242 5 None None None [] _ _ [OpIsalive; OpWait] eq_refl).
  reflexivity.
Defined.

(** ** Protocol violations *)

Section Violations.
Context {P : Platform} {os : Oracle}.

Lemma isalive_stopped (w : World) p st :
  terminated (self w) = false ->
  probe_answer w = inr (p, st) -> p <> 0 -> stopped_status st ->
  exists msg, isalive w = (inl (PtyProcessError msg), logged (probe_calls w) w).
Proof.
  intros Ht Ha Hp [H1 [H2 H3]].
  isalive_inv w; try congruence;
    match goal with
    | E : probe_answer w = inr _ |- _ => rewrite Ha in E; inversion E; subst
    end; try congruence.
  eauto.
Qed.

Lemma isalive_no_child (w : World) :
  terminated (self w) = false ->
  probe_answer w = inl (OSError ECHILD) ->
  exists msg, isalive w = (inl (PtyProcessError msg), logged (probe_calls w) w).
Proof.
  intros Ht Ha.
  isalive_inv w; try congruence.
  eauto.
Qed.

(** C9, as the code has it.  On a handle not yet terminated, a wait status
    of a stopped child makes [isalive] raise [PtyProcessError], and so does
    a [waitpid] of [isalive] that fails with ECHILD; [wait], which starts
    with [isalive], raises the same errors then, and raises
    [PtyProcessError] when its own blocking [waitpid] returns the status of
    a stopped child.  None of these runs returns an answer. *)
Theorem protocol_violations_raise (w : World) :
  terminated (self w) = false ->
  (forall p st,
     probe_answer w = inr (p, st) -> p <> 0 -> stopped_status st ->
     (exists msg, fst (isalive w) = inl (PtyProcessError msg))
     /\ (exists msg, fst (wait w) = inl (PtyProcessError msg)))
  /\ (probe_answer w = inl (OSError ECHILD) ->
      (exists msg, fst (isalive w) = inl (PtyProcessError msg))
      /\ (exists msg, fst (wait w) = inl (PtyProcessError msg)))
  /\ (forall w1 r st,
        isalive w = (inr true, w1) ->
        answer _ (log w1) (Waitpid (pid (self w1)) 0) = inr (r, st) ->
        stopped_status st ->
        exists msg, fst (wait w) = inl (PtyProcessError msg)).
Proof.
  intros Ht. split; [| split].
  - intros p st Ha Hp Hs.
    destruct (isalive_stopped w p st Ht Ha Hp Hs) as [msg E].
    split; exists msg; [now rewrite E | now rewrite wait_run, E].
  - intros Ha. destruct (isalive_no_child w Ht Ha) as [msg E].
    split; exists msg; [now rewrite E | now rewrite wait_run, E].
  - intros w1 r st E Ha [H1 [H2 H3]].
    rewrite wait_run, E. unfold wait_outcome. rewrite Ha, H1, H2, H3.
    eexists. reflexivity.
Qed.
End Violations.

Lemma protocol_violations_raise_witness :
  (exists msg,
     fst (isalive (P := linux) (os := reports 127) world0)
     = inl (PtyProcessError msg))
  /\ (exists msg,
        fst (isalive (P := linux)
               (os := no_child) world0)
        = inl (PtyProcessError msg))
  /\ (exists msg,
        fst (wait (P := linux) (os := stopped_on_wait) world0)
        = inl (PtyProcessError msg)).
Proof.
  split; [| split].
  - destruct (protocol_violations_raise (P := linux) (os := reports 127)
                world0 eq_refl) as [H _].
    apply (H 4242 127); [reflexivity | discriminate | repeat split].
  - destruct (protocol_violations_raise (P := linux)
                (os := no_child) world0 eq_refl) as [_ [H _]].
    apply H. reflexivity.
  - destruct (protocol_violations_raise (P := linux)
                (os := stopped_on_wait) world0 eq_refl) as [_ [_ H]].
    apply (H (logged [Ev (Waitpid 4242 1); Ev (Waitpid 4242 1)] world0)
             4242 127); [reflexivity | reflexivity | repeat split].
Defined.

(** C9 as worded fails in [wait]: after [isalive] answered [True], the
    blocking [waitpid] fails with ECHILD while [terminated] is false, and
    the caller gets that [OSError], not [PtyProcessError]. *)
Lemma wait_lets_no_child_through :
  terminated (self world0) = false
  /\ answer (Oracle := reaped_elsewhere) _
       [Ev (Waitpid 4242 1); Ev (Waitpid 4242 1)] (Waitpid 4242 0)
     = inl (OSError (ECHILD (Platform := linux)))
  /\ wait (P := linux) (os := reaped_elsewhere) world0
     = (inl (OSError (ECHILD (Platform := linux))),
        logged [Ev (Waitpid 4242 1); Ev (Waitpid 4242 1); Ev (Waitpid 4242 0)]
          world0).
Proof. repeat split. Qed.

(** ** End of file, and closing *)

Section Eof.
Context {P : Platform} {os : Oracle}.

(** C7.  No operation of the class takes [flag_eof] from true back to
    false, so [eof()] answers [True] from then on; in particular after a
    [read] or [readline] that met the end of the stream. *)
Theorem flag_eof_is_monotone :
  (forall w,
     flag_eof (self w) = true ->
     (forall op, flag_eof (self (run_op op w)) = true)
     /\ (forall ops,
           flag_eof (self (run_ops ops w)) = true
           /\ eof (run_ops ops w) = (inr true, run_ops ops w)))
  /\ (forall (m : Method bytes) (c : Call bytes) w,
        (exists size, m = read size /\ c = FileRead1 size)
        \/ (m = readline /\ c = FileReadline) ->
        answer _ (log w) c = inl (OSError EIO)
        \/ answer _ (log w) c = inr [] ->
        forall ops,
          fst (eof (run_ops ops (after m w))) = inr true).
Proof.
  assert (sticky : forall w ops,
             flag_eof (self w) = true ->
             flag_eof (self (run_ops ops w)) = true)
    by (intros w ops H; apply (eof_sticky_run_ops ops w H)).
  split.
  - intros w H. split.
    + intros op. apply (sticky w [op] H).
    + intros ops. split; [now apply sticky |].
      unfold eof, gets. now rewrite sticky.
  - intros m c w Hm Hc ops.
    assert (N : normalises_eof m c).
    { destruct Hm as [[size [-> ->]] | [-> ->]];
        [apply read_normalises_eof | apply readline_normalises_eof]. }
    destruct (N w) as [Heof _]. destruct (Heof Hc) as [msg E].
    unfold after. rewrite E. unfold eof, gets. cbn [fst snd].
    now rewrite sticky.
Qed.

End Eof.

Lemma flag_eof_is_monotone_witness :
  flag_eof
    (self (run_ops (P := linux) (os := calm)
             [OpRead 10; OpIsalive; OpClose true]
             (with_self (set_flag_eof true) world0))) = true
  /\ fst (eof (run_ops (P := linux) (os := read_empty)
                [OpIsalive; OpSendcontrol [99]]
                (after (read (P := linux) (os := read_empty) 1024) world0)))
     = inr true.
Proof.
  destruct (flag_eof_is_monotone (P := linux) (os := calm)) as [H _].
  destruct (flag_eof_is_monotone (P := linux) (os := read_empty)) as [_ H'].
  split.
  - apply (H (with_self (set_flag_eof true) world0) eq_refl).
  - apply (H' (read 1024) (FileRead1 1024) world0).
    + left. exists 1024. split; reflexivity.
    + right. reflexivity.
Defined.


Section Closing.
Context {P : Platform} {os : Oracle}.

Lemma close_completed force (w w' : World) :
  closed (self w) = false ->
  close force w = (inr tt, w') ->
  closed (self w') = true /\ fd (self w') = -1.
Proof.
  intros Hc E. unfold close in E. unfold bind at 1 in E.
  unfold gets at 1 in E. rewrite Hc in E. cbn [negb] in E.
  repeat (apply bind_returned in E; destruct E as [? [? [? E]]]).
  match goal with
  | H : modify (set_fd (-1)) _ = _ |- _ => unfold modify in H; inversion H
  end.
  unfold modify in E. inversion E. subst. split; reflexivity.
Qed.

Lemma close_again force (w : World) :
  closed (self w) = true -> close force w = (inr tt, w).
Proof. intros Hc. unfold close, bind, gets. now rewrite Hc. Qed.

Lemma releases_app l1 l2 : releases (l1 ++ l2) = (releases l1 + releases l2)%nat.
Proof. unfold releases. now rewrite filter_app, length_app. Qed.

Lemma released_call n X (c : Call X) :
  is_release c = false -> keeps (preserves (released_once n)) (call c).
Proof.
  intros Hc w [H1 H2]. change (snd (call c w)) with (logged [Ev c] w).
  unfold released_once, logged. cbn [self log].
  rewrite releases_app.
  assert (E : releases [Ev c] = 0%nat) by (destruct c; try reflexivity; discriminate).
  rewrite E, Nat.add_0_r. auto.
Qed.

Lemma released_modify n f :
  (forall h, fileobj (f h) = fileobj h) ->
  keeps (preserves (released_once n)) (modify f).
Proof. intros Hf w H. unfold released_once in *. cbn. now rewrite Hf. Qed.

Lemma released_fileobj_close n :
  keeps (preserves (released_once n)) fileobj_close.
Proof.
  intros w [H1 H2]. unfold fileobj_close, released_once.
  unfold bind, gets, modify, call, ret.
  destruct (fo_closed (fileobj (self w))) eqn:E; cbn -[releases];
    [now rewrite E |].
  rewrite releases_app, (H1 eq_refl). cbn. split; [discriminate | lia].
Qed.

Lemma released_run_ops n ops w :
  released_once n w -> released_once n (run_ops ops w).
Proof.
  apply (keeps_run_ops (R := preserves (released_once n)));
    try (intros; now apply released_call);
    try (intros; now apply released_modify).
  - apply keeps_isalive;
      try (intros; now apply released_call);
      (intros; now apply released_modify).
  - apply keeps_wait;
      try (intros; now apply released_call);
      (intros; now apply released_modify).
  - apply released_fileobj_close.
Qed.

(** C6.  A call of [close] that returns leaves [closed] true and, when the
    handle was not closed before, [fd] at -1; every later call returns
    without changing the state and without a call to the outside.  Over
    the life of a handle made by [__init__], whatever operations run
    on it, the descriptor is released at most once. *)
Theorem close_is_idempotent :
  (forall force w w',
     close force w = (inr tt, w') ->
     closed (self w') = true
     /\ (closed (self w) = false -> fd (self w') = -1)
     /\ forall force', close force' w' = (inr tt, w'))
  /\ (forall pid0 fd0 argv0 env0 cwd0 l h l' ops,
        __init__ pid0 fd0 argv0 env0 cwd0 l = (inr h, l') ->
        (releases (log (run_ops ops (mkWorld h l'))) <= releases l + 1)%nat).
Proof.
  split.
  - intros force w w' E. destruct (closed (self w)) eqn:Hc.
    + rewrite close_again in E by exact Hc. inversion E; subst.
      repeat split; [exact Hc | discriminate |].
      intros force'. now apply close_again.
    + destruct (close_completed force w w' Hc E) as [H1 H2].
      repeat split; auto. intros force'. now apply close_again.
  - intros pid0 fd0 argv0 env0 cwd0 l h l' ops E.
    destruct (init_run _ _ _ _ _ _ _ _ E) as [-> ->].
    apply (released_run_ops (releases l) ops).
    unfold released_once. cbn [self log]. rewrite releases_app.
    change (releases [Ev (IoOpen fd0 "rb"); Ev (IoOpen fd0 "wb")]) with 0%nat.
    split; [intros _ |]; lia.
Qed.
End Closing.

Lemma close_is_idempotent_witness :
  let w' := after (close (P := linux) (os := reports 0) true) world0 in
  closed (self w') = true
  /\ fd (self w') = -1
  /\ close (P := linux) (os := reports 0) false w' = (inr tt, w')
  /\ (releases
        (log (run_ops (P := linux) (os := calm)
                [OpClose false; OpClose true; OpDel]
                (mkWorld (mkPtyProcess 4242 5 None None None
                            (mkFileObj 5 false) false false None None None
                            false (1 # 10) (1 # 10) None)
                   [Ev (IoOpen 5 "rb"); Ev (IoOpen 5 "wb")])))
      <= releases [] + 1)%nat.
Proof.
  destruct (close_is_idempotent (P := linux) (os := reports 0)) as [H _].
  destruct (close_is_idempotent (P := linux) (os := calm)) as [_ H'].
  destruct (H true world0 _ eq_refl) as [H1 [H2 H3]].
  split; [exact H1 |]. split; [exact (H2 eq_refl) |].
  split; [exact (H3 false) |].
  apply (H' 4242 5 None None None [] _ _ _ eq_refl).
Defined.

(** ** Termination *)

Section Sublist.
Context {A : Type}.
Implicit Types s l : list A.




End Sublist.

Section Order.
Context {P : Platform} {os : Oracle}.

Lemma kills_of_app l1 l2 : kills_of (l1 ++ l2) = kills_of l1 ++ kills_of l2.
Proof. unfold kills_of. apply flat_map_app. Qed.







Lemma kills_of_probe_calls w : kills_of (probe_calls w) = [].
Proof.
  unfold probe_calls. destruct (answer _ _ _) as [e | [[| p | p] st]]; reflexivity.
Qed.






End Order.

Section Escalation.
Context {P : Platform} {os : Oracle}.

Lemma terminate_signals_stages force :
  terminate_signals force = stages (escalation force) (ret false).
Proof. destruct force; reflexivity. Qed.

(** *** [False] only from a child still alive *)





(** *** The error of a signal step is tolerated *)



End Escalation.

Section Fatal.
Context {P : Platform} {os : Oracle}.
Variables (p fatal : Z).
Hypothesis p_nonzero : p <> 0.
Hypothesis ignores :
  forall l o, ~ In (p, fatal) (kills_of l) ->
              exists st, answer _ l (Waitpid p o) = inr (0, st).
Hypothesis dies :
  forall l o, In (p, fatal) (kills_of l) ->
              exists st, answer _ l (Waitpid p o) = inr (p, st)
                         /\ (WIFEXITED st = true \/ WIFSIGNALED st = true).
Hypothesis kill_ok : forall l sig, answer _ l (Kill p sig) = inr tt.
Hypothesis sleep_ok : forall l d, answer _ l (Sleep d) = inr tt.








End Fatal.

Section Terminate.

Context {P : Platform} {os : Oracle}.


End Terminate.




(** * Further properties *)

(** ** Control characters, reading *)

Section MoreSendControl.

Context {P : Platform} {os : Oracle}.




Lemma str_lower_ascii_length (s : pystr) :
  forallb (fun c => (0 <=? c) && (c <? 128)) s = true ->
  List.length (str_lower s) = List.length s.
Proof. intros H. unfold str_lower. rewrite H. apply length_map. Qed.

(** X2.  Given an ASCII string that is not one character long, the empty
    string among them, [sendcontrol] raises [TypeError] (from [ord]) and
    writes nothing. *)
Theorem sendcontrol_wants_one_character (char : pystr) (w : World) :
  forallb (fun c => (0 <=? c) && (c <? 128)) char = true ->
  List.length char <> 1%nat ->
  exists msg, sendcontrol char w = (inl (TypeError msg), w).
Proof.
  intros Ha Hl. pose proof (str_lower_ascii_length char Ha) as E.
  unfold sendcontrol.
  destruct (str_lower char) as [| a [| a' rest]]; cbn in E;
    try (eexists; reflexivity).
  congruence.
Qed.

End MoreSendControl.


Lemma sendcontrol_wants_one_character_witness :
  (exists msg,
     sendcontrol (P := linux) (os := calm) [] world0
     = (inl (TypeError msg), world0))
  /\ (exists msg,
        sendcontrol (P := linux) (os := calm) (str_of_string "ab") world0
        = (inl (TypeError msg), world0)).
Proof.
  split.
  - apply (sendcontrol_wants_one_character (P := linux) (os := calm));
      [reflexivity | discriminate].
  - apply (sendcontrol_wants_one_character (P := linux) (os := calm));
      [reflexivity | discriminate].
Defined.

Section MoreReading.

Context {P : Platform} {os : Oracle}.

Lemma reading_returned (m : Method bytes) (c : Call bytes) :
  normalises_eof m c ->
  forall w s w',
    m w = (inr s, w') ->
    s <> [] /\ answer _ (log w) c = inr s /\ w' = logged [Ev c] w.
Proof.
  intros N w s w' E. destruct (N w) as [Heof [Herr Hok]].
  destruct (answer bytes (log w) c) as [e | s0] eqn:Ea.
  - assert (D : {e = OSError EIO} + {e <> OSError EIO}).
    { destruct e; try (right; discriminate).
      destruct (Z.eq_dec errno EIO); [left; congruence | right; congruence]. }
    destruct D as [-> | D].
    + destruct (Heof (or_introl eq_refl)) as [msg E']. congruence.
    + rewrite (Herr e D eq_refl) in E. discriminate.
  - destruct s0 as [| b s0].
    + destruct (Heof (or_intror eq_refl)) as [msg E']. congruence.
    + rewrite (Hok (b :: s0)) in E by (discriminate || reflexivity).
      inversion E; subst. repeat split. discriminate.
Qed.

(** X3.  [read] and [readline] never return an empty result: what they
    return is the non-empty answer of their one call to the file object, and
    the handle is as it was. *)
Theorem read_never_returns_empty :
  (forall size w s w',
     read size w = (inr s, w') ->
     s <> [] /\ answer _ (log w) (FileRead1 size) = inr s
     /\ w' = logged [Ev (FileRead1 size)] w)
  /\ (forall w s w',
        readline w = (inr s, w') ->
        s <> [] /\ answer _ (log w) FileReadline = inr s
        /\ w' = logged [Ev FileReadline] w).
Proof.
  split.
  - intros size. apply reading_returned, read_normalises_eof.
  - apply reading_returned, readline_normalises_eof.
Qed.

End MoreReading.

Lemma read_never_returns_empty_witness :
  read (P := linux) (os := calm) 1024 world0
  = (inr [x68; x69], logged [Ev (FileRead1 1024)] world0)
  /\ [x68; x69] <> ([] : bytes)
  /\ answer (Oracle := calm) _ (log world0) (FileRead1 1024)
     = inr [x68; x69].
Proof.
  split; [reflexivity |].
  destruct (read_never_returns_empty (P := linux) (os := calm)) as [H _].
  destruct (H 1024 world0 [x68; x69]
              (logged [Ev (FileRead1 1024)] world0) eq_refl) as [A [B _]].
  split; assumption.
Defined.

(** ** Signals and waiting *)

Section MoreLiveness.

Context {P : Platform} {os : Oracle}.

Lemma kill_run (sig : Z) (w : World) :
  kill sig w =
  match isalive w with
  | (inr true, w1) =>
      (answer _ (log w1) (Kill (pid (self w1)) sig),
       logged [Ev (Kill (pid (self w1)) sig)] w1)
  | (inr false, w1) => (inr tt, w1)
  | (inl e, w1) => (inl e, w1)
  end.
Proof.
  unfold kill. unfold bind at 1.
  destruct (isalive w) as [[e | [|]] w1]; reflexivity.
Qed.


Lemma wait_returns_stored (w : World) r w' :
  wait w = (inr r, w') -> r = exitstatus (self w').
Proof.
  intros E. rewrite wait_run in E.
  destruct (isalive w) as [[e | [|]] w1]; [discriminate | |].
  - unfold wait_outcome in E.
    destruct (answer _ _ _) as [e | [q st]]; [discriminate |].
    destruct (WIFEXITED st); [now inversion E |].
    destruct (WIFSIGNALED st); [now inversion E |].
    destruct (WIFSTOPPED st); [discriminate | now inversion E].
  - now inversion E.
Qed.

Lemma isalive_terminated (w : World) :
  terminated (self w) = true -> isalive w = (inr false, w).
Proof. intros Ht. unfold isalive, bind, gets. now rewrite Ht. Qed.

Lemma wait_terminated (w : World) :
  terminated (self w) = true -> wait w = (inr (exitstatus (self w)), w).
Proof. intros Ht. now rewrite wait_run, (isalive_terminated w Ht). Qed.

Lemma kill_terminated sig (w : World) :
  terminated (self w) = true -> kill sig w = (inr tt, w).
Proof. intros Ht. now rewrite kill_run, (isalive_terminated w Ht). Qed.

Lemma terminate_terminated force (w : World) :
  terminated (self w) = true -> terminate force w = (inr true, w).
Proof.
  intros Ht. unfold terminate.
  now rewrite (bind_inr _ _ _ _ _ (isalive_terminated w Ht)).
Qed.

(** X5.  [wait] returns the exit status the handle holds when it returns. On
    a terminated handle [isalive], [wait], [kill] and [terminate] answer
    from the handle alone, without a call: [False], the stored exit status,
    nothing, [True]. So a [wait] that returned with the handle terminated
    returns the same once more. *)
Theorem terminated_handle_answers_alone :
  (forall w r w', wait w = (inr r, w') -> r = exitstatus (self w'))
  /\ (forall w,
        terminated (self w) = true ->
        isalive w = (inr false, w)
        /\ wait w = (inr (exitstatus (self w)), w)
        /\ (forall sig, kill sig w = (inr tt, w))
        /\ (forall force, terminate force w = (inr true, w)))
  /\ (forall w r w',
        wait w = (inr r, w') -> terminated (self w') = true ->
        wait w' = (inr r, w')).
Proof.
  split; [exact wait_returns_stored | split].
  - intros w Ht. split; [now apply isalive_terminated |].
    split; [now apply wait_terminated |]. split.
    + intros sig. now apply kill_terminated.
    + intros force. now apply terminate_terminated.
  - intros w r w' E Ht. rewrite (wait_returns_stored w r w' E).
    now apply wait_terminated.
Qed.

End MoreLiveness.


Lemma terminated_handle_answers_alone_witness :
  let w' := after (wait (P := linux) (os := reports 9)) world0 in
  wait (P := linux) (os := reports 9) world0 = (inr None, w')
  /\ wait (P := linux) (os := reports 9) w' = (inr None, w')
  /\ terminate (P := linux) (os := reports 9) true w' = (inr true, w').
Proof.
  destruct (terminated_handle_answers_alone (P := linux) (os := reports 9))
    as [_ [H1 H2]].
  split; [reflexivity |]. split.
  - apply (H2 world0); reflexivity.
  - apply H1. reflexivity.
Defined.

(** ** One-way flags *)

Ltac frame_step :=
  match goal with
  | |- keeps _ (bind _ _) => apply keeps_bind; [| intros ?]
  | |- keeps _ (ret _) => apply keeps_ret
  | |- keeps _ (raise _) => apply keeps_raise
  | |- keeps _ (gets _) => apply keeps_gets
  | |- keeps _ (try_except _ _) => apply keeps_try; [| intros ?; cbv beta]
  | |- keeps _ (if ?b then _ else _) => destruct b
  | |- keeps _ (match ?x with _ => _ end) => destruct x
  | |- match (if ?b then _ else _) with _ => _ end => destruct b
  | |- match (match ?x with _ => _ end) with _ => _ end => destruct x
  | |- True => exact I
  | H : forall X (c : Call X), _ = false -> keeps _ (call c)
    |- keeps _ (call _) => apply H; reflexivity
  | |- keeps _ _ => solve [auto]
  end.

Ltac frame := repeat frame_step.

(** The operations of the class, built from [isalive], [wait], [kill] and
    [close]: a relation those four keep is kept by every operation. *)
Section ProcessFrames.

Context {P : Platform} {os : Oracle}.
Context {R : World -> World -> Prop} {R_pre : PreOrder R}.

Hypothesis R_call :
  forall X (c : Call X), is_process_call c = false -> keeps R (call c).
Hypothesis R_echo : forall v, keeps R (modify (set_echo v)).
Hypothesis R_flag_eof : keeps R (modify (set_flag_eof true)).
Hypothesis R_isalive : keeps R isalive.
Hypothesis R_wait : keeps R wait.
Hypothesis R_kill : forall sig, keeps R (kill sig).
Hypothesis R_close : forall force, keeps R (close force).

Lemma frame_terminate force : keeps R (terminate force).
Proof.
  unfold terminate, terminate_signals, terminate_last_attempt. frame.
Qed.

Lemma frame_getecho : keeps R getecho.
Proof. unfold getecho. frame. Qed.

Lemma frame_waitnoecho timeout fuel : keeps R (waitnoecho timeout fuel).
Proof.
  pose proof frame_getecho.
  unfold waitnoecho. destruct timeout as [timeout |].
  - frame_step; [frame |]. generalize timeout at 2.
    induction fuel as [| fuel IH]; intros t; cbn [waitnoecho_until]; frame.
  - induction fuel as [| fuel IH]; cbn [waitnoecho_forever]; frame.
Qed.

Lemma frame_writeb b fl : keeps R (_writeb b fl).
Proof. unfold _writeb. frame. Qed.

Lemma frame_sendcontrol char : keeps R (sendcontrol char).
Proof.
  pose proof frame_writeb. unfold sendcontrol, ord, _byte. frame.
Qed.

Lemma frame_run_op (op : Op) (w : World) : R w (run_op op w).
Proof.
  pose proof frame_terminate. pose proof frame_getecho.
  pose proof frame_waitnoecho. pose proof frame_writeb.
  pose proof frame_sendcontrol.
  destruct op as [force | | | | | timeout fuel | | state | size | | s fl
                 | char | | | | force | | | sig | | rows cols];
    cbn [run_op]; apply keeps_after;
    unfold __del__, fileno, flush, isatty, setecho, _setecho, write,
      read, readline, sendeof, sendintr, eof, getwinsize, setwinsize,
      _setwinsize, struct_pack_HHHH;
    frame.
Qed.

Lemma frame_run_ops (ops : list Op) (w : World) : R w (run_ops ops w).
Proof.
  revert w. induction ops as [| op ops IH]; intros w; cbn.
  - reflexivity.
  - etransitivity; [apply (frame_run_op op) | apply IH].
Qed.

End ProcessFrames.

#[export] Instance settled_PreOrder : PreOrder settled.
Proof.
  split.
  - intros w H. repeat split; auto.
  - intros a b c H1 H2 H. destruct (H1 H) as [Hb [E1 [E2 [E3 E4]]]].
    destruct (H2 Hb) as [Hc [F1 [F2 [F3 F4]]]].
    repeat split; congruence.
Qed.

Section Settled.

Context {P : Platform} {os : Oracle}.

Lemma process_calls_app l1 l2 :
  process_calls (l1 ++ l2) = (process_calls l1 + process_calls l2)%nat.
Proof. unfold process_calls. now rewrite filter_app, length_app. Qed.

Lemma unchanged_settled A (m : Method A) :
  (forall w, terminated (self w) = true -> snd (m w) = w) ->
  keeps settled m.
Proof. intros H w Ht. rewrite (H w Ht). repeat split; auto. Qed.

Lemma settled_call X (c : Call X) :
  is_process_call c = false -> keeps settled (call c).
Proof.
  intros Hc w Ht. change (snd (call c w)) with (logged [Ev c] w).
  unfold logged. cbn [self log]. rewrite process_calls_app.
  assert (E : process_calls [Ev c] = 0%nat)
    by (destruct c; try reflexivity; discriminate).
  rewrite E, Nat.add_0_r. repeat split; auto.
Qed.

Lemma settled_modify f :
  (forall h, terminated (f h) = terminated h
             /\ exitstatus (f h) = exitstatus h
             /\ signalstatus (f h) = signalstatus h
             /\ status (f h) = status h) ->
  keeps settled (modify f).
Proof.
  intros Hf w Ht. cbn. destruct (Hf (self w)) as [-> [-> [-> ->]]].
  repeat split; auto.
Qed.

Lemma settled_fileobj_close : keeps settled fileobj_close.
Proof.
  unfold fileobj_close.
  apply keeps_bind; [apply keeps_gets | intros fo].
  destruct (fo_closed fo); [apply keeps_ret |].
  apply keeps_bind; [now apply settled_modify | intros _].
  now apply settled_call.
Qed.

Lemma settled_isalive : keeps settled isalive.
Proof.
  apply unchanged_settled. intros w Ht. now rewrite isalive_terminated.
Qed.

Lemma settled_wait : keeps settled wait.
Proof.
  apply unchanged_settled. intros w Ht. now rewrite wait_terminated.
Qed.

Lemma settled_kill sig : keeps settled (kill sig).
Proof.
  apply unchanged_settled. intros w Ht. now rewrite kill_terminated.
Qed.

Lemma settled_terminate force : keeps settled (terminate force).
Proof.
  apply unchanged_settled. intros w Ht. now rewrite terminate_terminated.
Qed.

Lemma settled_close force : keeps settled (close force).
Proof.
  pose proof settled_isalive. pose proof settled_terminate.
  pose proof settled_fileobj_close.
  pose proof (fun X (c : Call X) => settled_call X c) as Hcall.
  assert (forall v, keeps settled (modify (set_fd v)))
    by (intros; now apply settled_modify).
  assert (keeps settled (modify (set_closed true)))
    by (now apply settled_modify).
  unfold close, flush. frame.
Qed.

Lemma settled_run_ops ops w : settled w (run_ops ops w).
Proof.
  apply frame_run_ops.
  - intros; now apply settled_call.
  - intros; now apply settled_modify.
  - now apply settled_modify.
  - apply settled_isalive.
  - apply settled_wait.
  - apply settled_kill.
  - apply settled_close.
Qed.

(** X6.  The terminated state is absorbing. Once [terminated] is true, no
    sequence of operations of the class makes it false again, changes
    [exitstatus], [signalstatus] or the raw [status], or calls [waitpid] or
    [kill] again. *)
Theorem terminated_is_absorbing (w : World) (ops : list Op) :
  terminated (self w) = true ->
  let w' := run_ops ops w in
  terminated (self w') = true
  /\ exitstatus (self w') = exitstatus (self w)
  /\ signalstatus (self w') = signalstatus (self w)
  /\ status (self w') = status (self w)
  /\ process_calls (log w') = process_calls (log w).
Proof. intros Ht. apply (settled_run_ops ops w Ht). Qed.

End Settled.

Lemma terminated_is_absorbing_witness :
  let w := after (isalive (P := linux) (os := reports 256)) world0 in
  let w' := run_ops (P := linux) (os := reports 9)
              [OpIsalive; OpWait; OpKill 9; OpTerminate true; OpClose true;
               OpRead 10]
              w in
  terminated (self w) = true
  /\ exitstatus (self w') = Some 1
  /\ signalstatus (self w') = None
  /\ process_calls (log w') = 1%nat.
Proof.
  intros w w'.
  destruct (terminated_is_absorbing (P := linux) (os := reports 9) w
              [OpIsalive; OpWait; OpKill 9; OpTerminate true; OpClose true;
               OpRead 10] eq_refl) as [_ [E1 [E2 [_ E3]]]].
  split; [reflexivity |]. split; [exact E1 |]. split; [exact E2 | exact E3].
Defined.

(** ** Identity, and closing *)

#[export] Instance same_identity_PreOrder : PreOrder same_identity.
Proof.
  split.
  - intros w. repeat split.
  - intros a b c [A1 [A2 [A3 [A4 [A5 [A6 A7]]]]]] [B1 [B2 [B3 [B4 [B5 [B6 B7]]]]]].
    repeat split; congruence.
Qed.

#[export] Instance same_closed_fd_PreOrder : PreOrder same_closed_fd.
Proof.
  split.
  - intros w. repeat split.
  - intros a b c [A1 [A2 A3]] [B1 [B2 B3]]. repeat split; congruence.
Qed.

#[export] Instance closing_PreOrder : PreOrder closing.
Proof.
  split.
  - intros w. split; [intros H; repeat split; auto | auto].
  - intros a b c [A1 A2] [B1 B2]. split; [| auto].
    intros H. destruct (A1 H) as [Hb [E1 E2]].
    destruct (B1 Hb) as [Hc [F1 F2]]. repeat split; congruence.
Qed.

Section Identity.

Context {P : Platform} {os : Oracle}.

Lemma same_identity_call X (c : Call X) : keeps same_identity (call c).
Proof. intros w. repeat split. Qed.

Lemma same_identity_modify f :
  (forall h, pid (f h) = pid h /\ argv (f h) = argv h /\ env (f h) = env h
             /\ cwd (f h) = cwd h
             /\ delayafterclose (f h) = delayafterclose h
             /\ delayafterterminate (f h) = delayafterterminate h
             /\ fo_fd (fileobj (f h)) = fo_fd (fileobj h)) ->
  keeps same_identity (modify f).
Proof. intros Hf w. apply Hf. Qed.

Lemma same_identity_fileobj_close : keeps same_identity fileobj_close.
Proof.
  intros w. unfold fileobj_close, bind, gets, modify, call, ret.
  destruct (fo_closed (fileobj (self w))); repeat split.
Qed.

Lemma same_identity_run_ops ops w : same_identity w (run_ops ops w).
Proof.
  apply keeps_run_ops;
    try (intros; apply same_identity_call);
    try (intros; apply same_identity_modify; intros; repeat split).
  - apply keeps_isalive;
      try (intros; apply same_identity_call);
      (intros; apply same_identity_modify; intros; repeat split).
  - apply keeps_wait;
      try (intros; apply same_identity_call);
      (intros; apply same_identity_modify; intros; repeat split).
  - apply same_identity_fileobj_close.
Qed.

(** X7.  No operation of the class changes the process id, the spawn data
    ([argv], [env], [cwd]), the two delays, or the descriptor that the file
    object holds; [close] resets [fd] only. *)
Theorem identity_is_immutable (w : World) (ops : list Op) :
  let w' := run_ops ops w in
  pid (self w') = pid (self w)
  /\ argv (self w') = argv (self w)
  /\ env (self w') = env (self w)
  /\ cwd (self w') = cwd (self w)
  /\ delayafterclose (self w') = delayafterclose (self w)
  /\ delayafterterminate (self w') = delayafterterminate (self w)
  /\ fo_fd (fileobj (self w')) = fo_fd (fileobj (self w)).
Proof. apply same_identity_run_ops. Qed.

End Identity.

Section MoreClosing.

Context {P : Platform} {os : Oracle}.

Lemma bind_cases {S A B} (m : M S A) (k : A -> M S B) s r s' :
  bind m k s = (r, s') ->
  (exists e, m s = (inl e, s') /\ r = inl e)
  \/ (exists a s1, m s = (inr a, s1) /\ k a s1 = (r, s')).
Proof.
  unfold bind. destruct (m s) as [[e | a] s1]; intros E.
  - left. inversion E; subst. eauto.
  - right. eauto.
Qed.

Lemma same_closed_fd_call X (c : Call X) : keeps same_closed_fd (call c).
Proof. intros w. repeat split. Qed.

Lemma same_closed_fd_modify f :
  (forall h, closed (f h) = closed h /\ fd (f h) = fd h
             /\ fileobj (f h) = fileobj h) ->
  keeps same_closed_fd (modify f).
Proof. intros Hf w. apply Hf. Qed.

Lemma same_closed_fd_isalive : keeps same_closed_fd isalive.
Proof.
  apply keeps_isalive;
    try (intros; apply same_closed_fd_call);
    (intros; apply same_closed_fd_modify; intros; repeat split).
Qed.

Lemma same_closed_fd_terminate force : keeps same_closed_fd (terminate force).
Proof.
  apply keeps_terminate;
    [intros; apply same_closed_fd_call | apply same_closed_fd_isalive].
Qed.

Lemma fileobj_close_closes (w : World) :
  let w1 := after fileobj_close w in
  closed (self w1) = closed (self w)
  /\ fd (self w1) = fd (self w)
  /\ fo_closed (fileobj (self w1)) = true.
Proof.
  unfold after, fileobj_close, bind, gets, modify, call, ret.
  destruct (fo_closed (fileobj (self w))) eqn:E; cbn; auto.
Qed.

Lemma close_outcome force (w : World) r w' :
  closed (self w) = false ->
  close force w = (r, w') ->
  fo_closed (fileobj (self w')) = true
  /\ match r with
     | inr _ => closed (self w') = true /\ fd (self w') = -1
     | inl _ => closed (self w') = false /\ fd (self w') = fd (self w)
     end.
Proof.
  intros Hc E. unfold close in E. unfold bind at 1 in E.
  unfold gets at 1 in E. rewrite Hc in E. cbn [negb] in E.
  unfold flush in E. unfold bind at 1 in E. unfold ret at 1 in E.
  pose proof (fileobj_close_closes w) as [C1 [C2 C3]]. unfold after in *.
  apply bind_cases in E.
  destruct E as [[e [E ->]] | [[] [w1 [E1 E]]]].
  { rewrite E in *. cbn in *. repeat split; congruence. }
  rewrite E1 in *. cbn [snd] in *.
  apply bind_cases in E.
  destruct E as [[e [E ->]] | [d [w2 [E2 E]]]]; [discriminate |].
  unfold gets in E2. inversion E2; subst w2. clear E2.
  apply bind_cases in E.
  destruct E as [[e [E ->]] | [[] [w2 [E2 E]]]].
  { pose proof (same_closed_fd_call _ (Sleep d) w1) as [S1 [S2 S3]].
    rewrite E in *. cbn [snd] in *. repeat split; congruence. }
  pose proof (same_closed_fd_call _ (Sleep d) w1) as [S1 [S2 S3]].
  rewrite E2 in *. cbn [snd] in *.
  apply bind_cases in E.
  destruct E as [[e [E ->]] | [alive [w3 [E3 E]]]].
  { pose proof (same_closed_fd_isalive w2) as [I1 [I2 I3]].
    rewrite E in *. cbn [snd] in *. repeat split; congruence. }
  pose proof (same_closed_fd_isalive w2) as [I1 [I2 I3]].
  rewrite E3 in *. cbn [snd] in *.
  apply bind_cases in E.
  assert (K : forall rr w4,
             (if alive
              then t <- terminate force ;;
                   (if negb t
                    then raise (PtyProcessError "Could not terminate the child.")
                    else ret tt)
              else ret tt) w3 = (rr, w4) ->
             same_closed_fd w3 w4).
  { intros rr w4 E0. destruct alive.
    - apply bind_cases in E0.
      pose proof (same_closed_fd_terminate force w3) as T.
      destruct E0 as [[e [E0 ->]] | [t [w5 [E5 E0]]]].
      + now rewrite E0 in T.
      + rewrite E5 in T. cbn [snd] in T.
        destruct t; cbn in E0; inversion E0; subst; exact T.
    - inversion E0. subst. repeat split. }
  destruct E as [[e [E ->]] | [[] [w4 [E4 E]]]].
  { destruct (K _ _ E) as [K1 [K2 K3]]. repeat split; congruence. }
  destruct (K _ _ E4) as [K1 [K2 K3]].
  cbn in E. inversion E; subst. cbn. repeat split; congruence.
Qed.

(** X8.  A [close] that raises has not closed the handle: [closed] is still
    false and [fd] is what it was, so that a later [close] or [__del__]
    tries again. The file object is closed all the same, and after a [close]
    that returned [closed] is true and [fd] is -1. *)
Theorem close_that_raises_leaves_handle_open force (w : World) :
  closed (self w) = false ->
  let w' := after (close force) w in
  fo_closed (fileobj (self w')) = true
  /\ match fst (close force w) with
     | inr _ => closed (self w') = true /\ fd (self w') = -1
     | inl _ => closed (self w') = false /\ fd (self w') = fd (self w)
     end.
Proof.
  intros Hc w'. subst w'. unfold after.
  destruct (close force w) as [r w'] eqn:E.
  exact (close_outcome force w r w' Hc E).
Qed.

End MoreClosing.

Lemma close_that_raises_leaves_handle_open_witness :
  let w' := after (close (P := linux) (os := calm) true) world0 in
  fst (close (P := linux) (os := calm) true world0)
  = inl (PtyProcessError "Could not terminate the child.")
  /\ fo_closed (fileobj (self w')) = true
  /\ closed (self w') = false /\ fd (self w') = 5.
Proof.
  intros w'. split; [reflexivity |].
  destruct (close_that_raises_leaves_handle_open
              (P := linux) (os := calm) true world0 eq_refl) as [H1 H2].
  split; [exact H1 | exact H2].
Defined.

Section ClosedForGood.

Context {P : Platform} {os : Oracle}.

Lemma same_closed_fd_closing (w w' : World) :
  same_closed_fd w w' -> closing w w'.
Proof.
  intros [E1 [E2 E3]]. unfold closing, closed_means_released.
  rewrite E1, E2, E3. split; auto.
Qed.

Lemma closing_of_same A (m : Method A) :
  keeps same_closed_fd m -> keeps closing m.
Proof. intros H w. apply same_closed_fd_closing, H. Qed.

Lemma closing_close force : keeps closing (close force).
Proof.
  intros w. destruct (closed (self w)) eqn:Hc.
  - rewrite close_again by exact Hc. reflexivity.
  - destruct (close force w) as [r w'] eqn:E. cbn [snd].
    destruct (close_outcome force w r w' Hc E) as [H1 H2].
    split; [congruence |]. intros _ Hc'.
    destruct r; destruct H2; [congruence | auto].
Qed.

Lemma closing_run_ops ops w : closing w (run_ops ops w).
Proof.
  apply frame_run_ops.
  - intros. apply closing_of_same, same_closed_fd_call.
  - intros. apply closing_of_same, same_closed_fd_modify.
    intros; repeat split.
  - apply closing_of_same, same_closed_fd_modify. intros; repeat split.
  - apply closing_of_same, same_closed_fd_isalive.
  - apply closing_of_same, keeps_wait;
      try (intros; apply same_closed_fd_call);
      try (intros; apply same_closed_fd_modify; intros; repeat split).
  - intros. apply closing_of_same, keeps_kill;
      [intros; apply same_closed_fd_call | apply same_closed_fd_isalive].
  - apply closing_close.
Qed.

(** X9.  [closed] is one-way. Once it is true, no sequence of operations
    makes it false again or touches [fd] or the file object. And on a handle
    made by [__init__], whatever ran on it, [closed] true means that [fd] is
    -1 and the file object is closed. *)
Theorem closed_is_for_good :
  (forall w ops,
     closed (self w) = true ->
     let w' := run_ops ops w in
     closed (self w') = true
     /\ fd (self w') = fd (self w)
     /\ fileobj (self w') = fileobj (self w))
  /\ (forall pid0 fd0 argv0 env0 cwd0 l h l' ops,
        __init__ pid0 fd0 argv0 env0 cwd0 l = (inr h, l') ->
        let w' := run_ops ops (mkWorld h l') in
        closed (self w') = true ->
        fd (self w') = -1 /\ fo_closed (fileobj (self w')) = true).
Proof.
  split.
  - intros w ops Hc. apply (closing_run_ops ops w), Hc.
  - intros pid0 fd0 argv0 env0 cwd0 l h l' ops E.
    destruct (init_run _ _ _ _ _ _ _ _ E) as [-> _].
    apply (closing_run_ops ops). intros H. cbn in H. discriminate H.
Qed.

Lemma del_run (w : World) :
  __del__ w =
  if closed (self w) then (inr tt, w) else
  match close true w with
  | (inl e, w') => if is_Exception e then (inr tt, w') else (inl e, w')
  | r => r
  end.
Proof.
  unfold __del__, bind, gets, try_except.
  destruct (closed (self w)); [reflexivity |]. cbn [negb].
  destruct (close true w) as [[e | []] w']; [| reflexivity].
  destruct (is_Exception e); reflexivity.
Qed.

(** X10.  [__del__] does what [close(True)] does to the handle and to the
    outside, and lets no [Exception] out: when [close] raises one, [__del__]
    returns; only what is no [Exception] ([KeyboardInterrupt] and the like)
    passes. On a closed handle it does nothing. *)
Theorem del_swallows_exceptions (w : World) :
  after __del__ w = after (close true) w
  /\ (forall e, fst (__del__ w) = inl e ->
                is_Exception e = false /\ fst (close true w) = inl e)
  /\ (forall e, fst (close true w) = inl e -> is_Exception e = true ->
                fst (__del__ w) = inr tt)
  /\ (closed (self w) = true -> __del__ w = (inr tt, w)).
Proof.
  unfold after. rewrite del_run.
  destruct (closed (self w)) eqn:Hc.
  - rewrite close_again by exact Hc. cbn.
    repeat split; intros; discriminate.
  - destruct (close true w) as [[e | []] w']; cbn.
    + destruct (is_Exception e) eqn:He; cbn; repeat split;
        intros; try discriminate; try congruence.
    + repeat split; intros; discriminate.
Qed.

End ClosedForGood.

Lemma closed_is_for_good_witness :
  let w := after (close (P := linux) (os := reports 0) true) world0 in
  let w' := run_ops (P := linux) (os := calm)
              [OpRead 1; OpSetwinsize 10 10; OpClose false; OpDel] w in
  closed (self w) = true
  /\ closed (self w') = true /\ fd (self w') = -1
  /\ fileobj (self w') = mkFileObj 5 true.
Proof.
  intros w w'. split; [reflexivity |].
  destruct (closed_is_for_good (P := linux) (os := calm)) as [H _].
  apply (H w [OpRead 1; OpSetwinsize 10 10; OpClose false; OpDel]).
  reflexivity.
Defined.

Lemma del_swallows_exceptions_witness :
  fst (close (P := linux) (os := calm) true world0)
  = inl (PtyProcessError "Could not terminate the child.")
  /\ fst (__del__ (P := linux) (os := calm) world0) = inr tt.
Proof.
  split; [reflexivity |].
  destruct (del_swallows_exceptions (P := linux) (os := calm) world0)
    as [_ [_ [H _]]].
  apply (H (PtyProcessError "Could not terminate the child."));
    reflexivity.
Defined.

(** ** Echo and window size *)

Section Echo.

Context {P : Platform} {os : Oracle}.

(** The attributes [_setecho] writes back. *)
Lemma setecho_lflag_bits (lf : Z) (state : bool) (i : Z) :
  0 <= i ->
  Z.testbit (if state then Z.lor lf ECHO else Z.land lf (Z.lnot ECHO)) i
  = if Z.testbit ECHO i then state else Z.testbit lf i.
Proof.
  intros Hi. destruct state.
  - rewrite Z.lor_spec. destruct (Z.testbit ECHO i);
      [apply orb_true_r | apply orb_false_r].
  - rewrite Z.land_spec, Z.lnot_spec by exact Hi.
    destruct (Z.testbit ECHO i); cbn;
      [apply andb_false_r | apply andb_true_r].
Qed.

Lemma tcgetattr_guarded_run f (w : World) :
  try_except (call (Tcgetattr f))
    (fun err =>
       match err with
       | TermiosError _ =>
           Some (if args0_is err EINVAL then raise (OSError EINVAL)
                 else raise err)
       | _ => None
       end) w
  = (match answer _ (log w) (Tcgetattr f) with
     | inl (TermiosError c) =>
         inl (if c =? EINVAL then OSError EINVAL else TermiosError c)
     | r => r
     end, logged [Ev (Tcgetattr f)] w).
Proof.
  unfold try_except, call, logged. cbn.
  destruct (answer Termios (log w) (Tcgetattr f)) as [e | a];
    [| reflexivity].
  destruct e; try reflexivity. cbn. destruct (code =? EINVAL); reflexivity.
Qed.

Lemma tcsetattr_guarded_run f attr (w : World) :
  try_except (call (Tcsetattr f TCSANOW attr))
    (fun err =>
       if is_OSError err then
         Some (if args0_is err EINVAL then raise (OSError EINVAL)
               else raise err)
       else None) w
  = (answer _ (log w) (Tcsetattr f TCSANOW attr),
     logged [Ev (Tcsetattr f TCSANOW attr)] w).
Proof.
  unfold try_except, call, logged. cbn.
  destruct (answer unit (log w) (Tcsetattr f TCSANOW attr)) as [e | a];
    [| reflexivity].
  destruct e; try reflexivity. cbn.
  destruct (Z.eqb_spec errno EINVAL); [subst |]; reflexivity.
Qed.

Lemma setecho_run state (w : World) :
  setecho state w =
  let f := fd (self w) in
  match answer _ (log w) (Tcgetattr f) with
  | inl e =>
      (inl match e with
           | TermiosError c =>
               if c =? EINVAL then OSError EINVAL else TermiosError c
           | _ => e
           end, logged [Ev (Tcgetattr f)] w)
  | inr attr =>
      let attr' :=
        mkTermios (iflag attr) (oflag attr) (cflag attr)
          (if state then Z.lor (lflag attr) ECHO
           else Z.land (lflag attr) (Z.lnot ECHO))
          (ispeed attr) (ospeed attr) (cc attr) in
      let w1 := logged [Ev (Tcgetattr f); Ev (Tcsetattr f TCSANOW attr')] w in
      match answer _ (log w ++ [Ev (Tcgetattr f)])
              (Tcsetattr f TCSANOW attr') with
      | inl e => (inl e, w1)
      | inr _ => (inr tt, with_self (set_echo (Some state)) w1)
      end
  end.
Proof.
  unfold setecho. unfold bind at 1. unfold gets at 1.
  unfold _setecho. unfold bind at 1. unfold bind at 1.
  rewrite tcgetattr_guarded_run.
  destruct (answer Termios (log w) (Tcgetattr (fd (self w)))) as [e | attr].
  - destruct e; reflexivity.
  - cbv zeta. rewrite tcsetattr_guarded_run. cbn [log logged self].
    destruct (answer unit _ _) as [e | []]; unfold logged, with_self;
      cbn; rewrite <- app_assoc; reflexivity.
Qed.

Lemma getecho_run (w : World) :
  getecho w =
  let f := fd (self w) in
  match answer _ (log w) (Tcgetattr f) with
  | inl e =>
      (inl match e with
           | TermiosError c =>
               if c =? EINVAL then OSError EINVAL else TermiosError c
           | _ => e
           end, logged [Ev (Tcgetattr f)] w)
  | inr attr =>
      let e := negb (Z.land (lflag attr) ECHO =? 0) in
      (inr e, with_self (set_echo (Some e)) (logged [Ev (Tcgetattr f)] w))
  end.
Proof.
  unfold getecho. unfold bind at 1. unfold gets at 1.
  unfold bind at 1. rewrite tcgetattr_guarded_run.
  destruct (answer Termios (log w) (Tcgetattr (fd (self w)))) as [e | attr].
  - destruct e; reflexivity.
  - reflexivity.
Qed.

(** X11.  [setecho] touches the ECHO bits only. It reads the attributes of
    the descriptor once and writes them back once, with [TCSANOW]; what it
    writes differs from what it read in the local flags at most, where every
    bit of ECHO is on for [True] and off for [False] and every other bit is
    as it was. *)
Theorem setecho_changes_echo_bits_only (state : bool) (w : World) attr :
  answer _ (log w) (Tcgetattr (fd (self w))) = inr attr ->
  exists attr',
    log (after (setecho state) w)
    = log w ++ [Ev (Tcgetattr (fd (self w)));
                Ev (Tcsetattr (fd (self w)) TCSANOW attr')]
    /\ (iflag attr', oflag attr', cflag attr', ispeed attr', ospeed attr',
        cc attr')
       = (iflag attr, oflag attr, cflag attr, ispeed attr, ospeed attr,
          cc attr)
    /\ forall i, 0 <= i ->
         Z.testbit (lflag attr') i
         = if Z.testbit ECHO i then state else Z.testbit (lflag attr) i.
Proof.
  intros E. unfold after. rewrite setecho_run. cbv zeta. rewrite E.
  eexists. split; [| split].
  - destruct (answer unit _ _) as [e | []]; reflexivity.
  - reflexivity.
  - intros i Hi. cbn [lflag]. now apply setecho_lflag_bits.
Qed.

Lemma echo_bit_read (lf : Z) (state : bool) :
  ECHO <> 0 ->
  negb (Z.land (if state then Z.lor lf ECHO
                else Z.land lf (Z.lnot ECHO)) ECHO =? 0) = state.
Proof.
  intros Hne. destruct state.
  - replace (Z.land (Z.lor lf ECHO) ECHO) with ECHO.
    + destruct (Z.eqb_spec ECHO 0); [contradiction | reflexivity].
    + apply Z.bits_inj'. intros i Hi.
      rewrite Z.land_spec, Z.lor_spec.
      destruct (Z.testbit ECHO i), (Z.testbit lf i); reflexivity.
  - replace (Z.land (Z.land lf (Z.lnot ECHO)) ECHO) with 0; [reflexivity |].
    apply Z.bits_inj'. intros i Hi.
    rewrite !Z.land_spec, Z.lnot_spec, Z.bits_0 by exact Hi.
    destruct (Z.testbit ECHO i), (Z.testbit lf i); reflexivity.
Qed.

(** X12.  On a terminal that keeps what [tcsetattr] gave it, [getecho] after
    [setecho state] answers [state], and both leave [state] in the [echo]
    attribute of the handle. *)
Theorem setecho_then_getecho (state : bool) (w : World) attr :
  ECHO <> 0 ->
  answer _ (log w) (Tcgetattr (fd (self w))) = inr attr ->
  (forall attr',
     answer _ (log w ++ [Ev (Tcgetattr (fd (self w)))])
       (Tcsetattr (fd (self w)) TCSANOW attr') = inr tt
     /\ answer _ (log w ++ [Ev (Tcgetattr (fd (self w)));
                            Ev (Tcsetattr (fd (self w)) TCSANOW attr')])
          (Tcgetattr (fd (self w))) = inr attr') ->
  exists w',
    (setecho state ;; getecho) w = (inr state, w')
    /\ echo (self w') = Some state
    /\ echo (self (after (setecho state) w)) = Some state.
Proof.
  intros Hne E Hmem.
  assert (Es := setecho_run state w). cbv zeta in Es. rewrite E in Es.
  destruct (Hmem (mkTermios (iflag attr) (oflag attr) (cflag attr)
                    (if state then Z.lor (lflag attr) ECHO
                     else Z.land (lflag attr) (Z.lnot ECHO))
                    (ispeed attr) (ospeed attr) (cc attr))) as [Hs Hg].
  rewrite Hs in Es.
  unfold after. rewrite (bind_inr _ _ _ _ _ Es), Es.
  rewrite getecho_run. cbv zeta. cbn [self with_self logged log fd set_echo].
  rewrite Hg. cbn [lflag]. rewrite (echo_bit_read _ _ Hne).
  eexists. split; [reflexivity |]. split; reflexivity.
Qed.

(** X13.  A terminal that refuses [tcgetattr]: the termios error coded
    EINVAL reaches the caller of [getecho] and of [setecho] as [IOError]
    with that code, every other exception as it is; nothing is written to
    the terminal, and the [echo] attribute of the handle stays as it was.
    The same holds for [setecho] when [tcsetattr] fails. *)
Theorem echo_errors (w : World) :
  (forall e,
     answer _ (log w) (Tcgetattr (fd (self w))) = inl e ->
     let e' := match e with
               | TermiosError c =>
                   if c =? EINVAL then OSError EINVAL else TermiosError c
               | _ => e
               end in
     getecho w = (inl e', logged [Ev (Tcgetattr (fd (self w)))] w)
     /\ forall state,
          setecho state w
          = (inl e', logged [Ev (Tcgetattr (fd (self w)))] w))
  /\ (forall state e,
        fst (setecho state w) = inl e ->
        self (after (setecho state) w) = self w).
Proof.
  split.
  - intros e E e'. subst e'. split.
    + rewrite getecho_run. cbv zeta. now rewrite E.
    + intros state. rewrite setecho_run. cbv zeta. now rewrite E.
  - intros state e. unfold after. rewrite setecho_run. cbv zeta.
    destruct (answer Termios _ _) as [e0 | attr]; [reflexivity |].
    destruct (answer unit _ _) as [e0 | []]; [reflexivity | discriminate].
Qed.

End Echo.

Lemma setecho_changes_echo_bits_only_witness :
  exists attr',
    log (after (setecho (P := linux) (os := tty) false) world0)
    = [Ev (Tcgetattr 5); Ev (Tcsetattr 5 0 attr')]
    /\ lflag attr' = 0.
Proof.
  destruct (setecho_changes_echo_bits_only (P := linux) (os := tty) false
              world0 (mkTermios 0 0 0 8 0 0 []) eq_refl)
    as [attr' [Hl _]].
  exists attr'. split; [exact Hl |].
  cbv in Hl. inversion Hl. reflexivity.
Defined.

Lemma setecho_then_getecho_witness :
  exists w',
    (setecho (P := linux) (os := tty) false ;; getecho (P := linux) (os := tty))
      world0 = (inr false, w')
    /\ echo (self w') = Some false.
Proof.
  destruct (setecho_then_getecho (P := linux) (os := tty) false world0
              (mkTermios 0 0 0 8 0 0 []))
    as [w' [H1 [H2 _]]].
  - discriminate.
  - reflexivity.
  - intros attr'. split; [reflexivity |]. cbn. reflexivity.
  - exists w'. split; assumption.
Defined.

Lemma echo_errors_witness :
  getecho (P := linux) (os := no_tty 22) world0
  = (inl (OSError 22), logged [Ev (Tcgetattr 5)] world0)
  /\ setecho (P := linux) (os := no_tty 25) true world0
     = (inl (TermiosError 25), logged [Ev (Tcgetattr 5)] world0).
Proof.
  split.
  - destruct (echo_errors (P := linux) (os := no_tty 22) world0) as [H _].
    apply (H (TermiosError 22) eq_refl).
  - destruct (echo_errors (P := linux) (os := no_tty 25) world0) as [H _].
    apply (H (TermiosError 25) eq_refl).
Defined.

Section Winsize.

Context {P : Platform} {os : Oracle}.

Lemma struct_pack_run {S} (a b c d : Z) (s : S) :
  @struct_pack_HHHH S a b c d s =
  if forallb (fun v => (0 <=? v) && (v <=? 65535)) [a; b; c; d]
  then (inr (mkWinsize a b c d), s) else (inl StructError, s).
Proof.
  unfold struct_pack_HHHH.
  destruct (forallb _ _); reflexivity.
Qed.

Lemma in_range_pack (rows cols : Z) :
  forallb (fun v => (0 <=? v) && (v <=? 65535)) [rows; cols; 0; 0] = true
  <-> (0 <= rows <= 65535 /\ 0 <= cols <= 65535).
Proof.
  cbn. rewrite !andb_true_iff, !Z.leb_le. intuition.
Qed.

Lemma setwinsize_run rows cols (w : World) :
  setwinsize rows cols w =
  if forallb (fun v => (0 <=? v) && (v <=? 65535)) [rows; cols; 0; 0]
  then (answer _ (log w)
          (IoctlSetWinsize (fd (self w)) (mkWinsize rows cols 0 0)),
        logged [Ev (IoctlSetWinsize (fd (self w))
                      (mkWinsize rows cols 0 0))] w)
  else (inl StructError, w).
Proof.
  unfold setwinsize, _setwinsize. unfold bind at 1. unfold gets at 1.
  unfold bind at 1. rewrite struct_pack_run.
  destruct (forallb _ _); reflexivity.
Qed.

(** X14.  [setwinsize] takes rows and columns that fit an unsigned short
    only: with either outside 0..65535 it raises [struct.error] before any
    call. Otherwise it makes the one ioctl, with both pixel sizes 0. On a
    terminal that answers the size query with the size last set,
    [getwinsize] after [setwinsize rows cols] returns [(rows, cols)]. *)
Theorem winsize_set_and_get (rows cols : Z) (w : World) :
  (~ (0 <= rows <= 65535 /\ 0 <= cols <= 65535) ->
   setwinsize rows cols w = (inl StructError, w))
  /\ (0 <= rows <= 65535 /\ 0 <= cols <= 65535 ->
      let c := IoctlSetWinsize (fd (self w)) (mkWinsize rows cols 0 0) in
      setwinsize rows cols w = (answer _ (log w) c, logged [Ev c] w)
      /\ (answer _ (log w) c = inr tt ->
          (forall q, answer _ (log w ++ [Ev c])
                       (IoctlGetWinsize (fd (self w)) q)
                     = inr (mkWinsize rows cols 0 0)) ->
          fst ((setwinsize rows cols ;; getwinsize) w) = inr (rows, cols))).
Proof.
  split.
  - intros Hn. rewrite setwinsize_run.
    destruct (forallb _ _) eqn:E; [| reflexivity].
    apply in_range_pack in E. contradiction.
  - intros Hr c. subst c. apply in_range_pack in Hr.
    assert (Es := setwinsize_run rows cols w). rewrite Hr in Es.
    split; [exact Es |]. intros Hok Hmem. rewrite Hok in Es.
    rewrite (bind_inr _ _ _ _ _ Es).
    unfold getwinsize. unfold bind at 1. rewrite struct_pack_run. cbn [forallb].
    cbn -[answer]. rewrite Hmem. reflexivity.
Qed.

End Winsize.

Lemma winsize_set_and_get_witness :
  setwinsize (os := tty) 70000 80 world0
  = (inl StructError, world0)
  /\ fst ((setwinsize (os := tty) 40 120 ;;
           getwinsize (os := tty)) world0) = inr (40, 120).
Proof.
  split.
  - apply (winsize_set_and_get (os := tty) 70000 80 world0).
    lia.
  - destruct (winsize_set_and_get (os := tty) 40 120 world0)
      as [_ H].
    destruct H as [_ H]; [lia |].
    apply H; [reflexivity | intros q; reflexivity].
Defined.

Section WaitNoEcho.

Context {P : Platform} {os : Oracle}.

Lemma getecho_returned (w : World) e w' :
  getecho w = (inr e, w') -> echo (self w') = Some e.
Proof.
  rewrite getecho_run. cbv zeta.
  destruct (answer Termios _ _) as [x | attr]; [discriminate |].
  intros E. inversion E. reflexivity.
Qed.

Lemma call_keeps_self X (c : Call X) (w : World) r w' :
  call c w = (r, w') -> self w' = self w.
Proof. unfold call. intros E. inversion E. reflexivity. Qed.

Lemma waitnoecho_until_answer end_time fuel :
  forall timeout (w : World) b w',
    waitnoecho_until end_time timeout fuel w = (inr (Some b), w') ->
    echo (self w') = Some (negb b).
Proof.
  induction fuel as [| fuel IH]; intros timeout w b w' E;
    cbn [waitnoecho_until] in E; [discriminate |].
  apply bind_returned in E. destruct E as [e [w1 [Eg E]]].
  apply getecho_returned in Eg.
  destruct e; cbn [negb] in E.
  - destruct (Qle_bool 0 timeout); cbn [negb] in E.
    + apply bind_returned in E. destruct E as [now [w2 [E2 E]]].
      apply bind_returned in E. destruct E as [[] [w3 [E3 E]]].
      now apply IH in E.
    + inversion E; subst. exact Eg.
  - inversion E; subst. exact Eg.
Qed.

Lemma waitnoecho_forever_answer fuel :
  forall (w : World) b w',
    waitnoecho_forever fuel w = (inr (Some b), w') ->
    b = true /\ echo (self w') = Some false.
Proof.
  induction fuel as [| fuel IH]; intros w b w' E;
    cbn [waitnoecho_forever] in E; [discriminate |].
  apply bind_returned in E. destruct E as [e [w1 [Eg E]]].
  apply getecho_returned in Eg.
  destruct e; cbn [negb] in E.
  - apply bind_returned in E. destruct E as [[] [w3 [E3 E]]].
    now apply IH in E.
  - inversion E; subst. split; [reflexivity | exact Eg].
Qed.

(** X15.  [waitnoecho] answers by what it last saw: when it returns [True]
    the last [getecho] found echo off, and the handle's [echo] attribute is
    [False]; when it returns [False] echo was on, and a timeout was given.
    Without a timeout it never returns [False]. When echo is off at the
    first look it returns [True] without sleeping. *)
Theorem waitnoecho_answers_by_echo (timeout : option Q) (fuel : nat)
    (w : World) :
  (forall b w',
     waitnoecho timeout fuel w = (inr (Some b), w') ->
     echo (self w') = Some (negb b)
     /\ (b = false -> timeout <> None))
  /\ (forall attr,
        answer _ (log w) (Tcgetattr (fd (self w))) = inr attr ->
        Z.land (lflag attr) ECHO = 0 ->
        waitnoecho None (Datatypes.S fuel) w
        = (inr (Some true),
           with_self (set_echo (Some false))
             (logged [Ev (Tcgetattr (fd (self w)))] w))).
Proof.
  split.
  - intros b w' E. destruct timeout as [t |]; cbn [waitnoecho] in E.
    + apply bind_returned in E. destruct E as [now [w1 [E1 E]]].
      apply waitnoecho_until_answer in E. split; [exact E | discriminate].
    + apply waitnoecho_forever_answer in E. destruct E as [-> E].
      split; [exact E | discriminate].
  - intros attr Ea Hz. cbn [waitnoecho waitnoecho_forever].
    assert (Eg : getecho w
                 = (inr false,
                    with_self (set_echo (Some false))
                      (logged [Ev (Tcgetattr (fd (self w)))] w)))
      by (rewrite getecho_run; cbv zeta; rewrite Ea, Hz; reflexivity).
    now rewrite (bind_inr _ _ _ _ _ Eg).
Qed.

End WaitNoEcho.

Lemma waitnoecho_answers_by_echo_witness :
  waitnoecho (P := linux) (os := tty) (Some (-1 # 1)%Q) 5 world0
  = (inr (Some false),
     with_self (set_echo (Some true))
       (logged [Ev Clock; Ev (Tcgetattr 5)] world0))
  /\ echo (self (after (waitnoecho (P := linux) (os := tty)
                          (Some (-1 # 1)%Q) 5) world0)) = Some true.
Proof.
  split; [reflexivity |].
  destruct (waitnoecho_answers_by_echo (P := linux) (os := tty)
              (Some (-1 # 1)%Q) 5 world0) as [H _].
  apply (H false). reflexivity.
Defined.

(** ** Spawning: the parent *)

Section SpawnParent.

Context {P : Platform} {os : Oracle}.

Lemma call_run {S} `{Logged S} X (c : Call X) (s : S) :
  call c s = (answer X (get_log s) c, put_log (get_log s ++ [Ev c]) s).
Proof. reflexivity. Qed.

Lemma spawn_forked argv command rest path cwd env echo preexec_fn dimensions
    pass_fds l r wr pid fd :
  argv = ArgvList (command :: rest) \/ argv = ArgvTuple (command :: rest) ->
  forked l command path r wr pid fd ->
  spawn argv cwd env echo preexec_fn dimensions pass_fds l
  = (try_except (err <- call (PickleLoad r) ;; raise err)
       (fun e => match e with
                 | EOFError _ => Some (ret tt)
                 | _ => None
                 end) ;;
     r <- try_except
            (on_instance
               (mkPtyProcess pid fd (Some (path :: rest)) env cwd
                  (mkFileObj fd false) false false None None None false
                  (1 # 10) (1 # 10) None)
               (setwinsize (fst dimensions) (snd dimensions)))
            (fun err =>
               if is_OSError err then
                 Some (if negb (args0_in err [EINVAL; ENOTTY; ENXIO])
                       then raise err
                       else ret (tt,
                                 mkPtyProcess pid fd (Some (path :: rest))
                                   env cwd (mkFileObj fd false) false false
                                   None None None false (1 # 10) (1 # 10)
                                   None))
               else None) ;;
     ret (snd r)) (l ++ spawn_calls command r wr fd).
Proof.
  intros Hargv [H1 [H2 [H3 [H4 [H5 [H6 H7]]]]]].
  apply Z.eqb_neq in H4.
  destruct Hargv as [-> | ->]; unfold spawn, __init__, spawn_calls;
    unfold bind at 1; unfold ret at 1;
    unfold bind at 1; unfold ret at 1;
    unfold bind at 1; rewrite call_run; cbn [get_log put_log Logged_log];
    rewrite H1;
    unfold bind at 1; rewrite call_run; cbn [get_log put_log Logged_log];
    rewrite H2;
    unfold bind at 1; rewrite call_run; cbn [get_log put_log Logged_log];
    rewrite <- app_assoc; cbn [app]; rewrite H3; cbn [fst snd tl];
    rewrite H4;
    unfold bind at 1; unfold ret at 1;
    unfold bind at 1; unfold bind at 1;
    rewrite call_run; cbn [get_log put_log Logged_log];
    rewrite <- app_assoc; cbn [app]; rewrite H5;
    unfold bind at 1;
    rewrite call_run; cbn [get_log put_log Logged_log];
    rewrite <- app_assoc; cbn [app]; rewrite H6;
    unfold ret at 1;
    unfold bind at 1;
    rewrite call_run; cbn [get_log put_log Logged_log];
    rewrite <- app_assoc; cbn [app]; rewrite H7;
    rewrite <- app_assoc; reflexivity.
Qed.


Lemma setwinsize_on_instance inst rows cols l :
  0 <= rows <= 65535 -> 0 <= cols <= 65535 ->
  on_instance inst (setwinsize rows cols) l
  = (match answer _ l (IoctlSetWinsize (fd inst) (mkWinsize rows cols 0 0))
     with
     | inr _ => inr (tt, inst)
     | inl e => inl e
     end,
     l ++ [Ev (IoctlSetWinsize (fd inst) (mkWinsize rows cols 0 0))]).
Proof.
  intros Hr Hc. unfold on_instance.
  rewrite (setwinsize_run rows cols (mkWorld inst l)).
  rewrite (proj2 (in_range_pack rows cols) (conj Hr Hc)).
  cbn [self log logged].
  destruct (answer _ l (IoctlSetWinsize (fd inst) (mkWinsize rows cols 0 0)))
    as [e | []]; reflexivity.
Qed.

(** X16.  The parent side of [spawn], once the program was found, the pipe
    made, the child forked, the two file objects opened and the write end of
    the pipe closed. It reads the error pipe once. Whatever comes out of
    that read, loaded or raised by the read itself, is raised by [spawn],
    with no call after the read, unless it is an [EOFError]. An [EOFError],
    which is what the read raises when the child's [exec] closed the pipe,
    is swallowed: [spawn] sets the window size with one ioctl on the master
    descriptor and returns a fresh handle for the child; an [OSError] of
    that ioctl whose code is [EINVAL], [ENOTTY] or [ENXIO] is ignored, any
    other error of it is raised. *)
Theorem spawn_reads_the_error_pipe argv command rest path cwd env echo
    preexec_fn rows cols pass_fds l r wr pid master :
  argv = ArgvList (command :: rest) \/ argv = ArgvTuple (command :: rest) ->
  forked l command path r wr pid master ->
  let l1 := l ++ spawn_calls command r wr master in
  let l2 := l1 ++ [Ev (PickleLoad r)] in
  let raised := match answer _ l1 (PickleLoad r) with
                | inl e => e
                | inr e => e
                end in
  let ioctl := IoctlSetWinsize master (mkWinsize rows cols 0 0) in
  let handle := mkPtyProcess pid master (Some (path :: rest)) env cwd
                  (mkFileObj master false) false false None None None false
                  (1 # 10) (1 # 10) None in
  ((forall msg, raised <> EOFError msg) ->
   spawn argv cwd env echo preexec_fn (rows, cols) pass_fds l
   = (inl raised, l2))
  /\ ((exists msg, raised = EOFError msg) ->
      0 <= rows <= 65535 -> 0 <= cols <= 65535 ->
      spawn argv cwd env echo preexec_fn (rows, cols) pass_fds l
      = (match answer _ l2 ioctl with
         | inr _ => inr handle
         | inl e =>
             if is_OSError e && args0_in e [EINVAL; ENOTTY; ENXIO]
             then inr handle else inl e
         end, l2 ++ [Ev ioctl])).
Proof.
  intros Hargv Hf l1 l2 raised ioctl handle.
  rewrite (spawn_forked _ _ _ _ _ _ _ _ _ _ _ _ _ _ _ Hargv Hf).
  fold l1. fold handle. cbn [fst snd].
  assert (Er : (err <- call (PickleLoad r) ;; raise err) l1
               = (inl raised, l2) :> (Exn + unit) * list Event).
  { unfold bind at 1. rewrite call_run. cbn [get_log put_log Logged_log].
    subst raised l2. destruct (answer _ l1 (PickleLoad r)); reflexivity. }
  split.
  - intros Hne. unfold bind at 1. unfold try_except at 1. rewrite Er.
    destruct raised; try reflexivity.
    exfalso. eapply Hne. reflexivity.
  - intros [msg Hm] Hr Hc. unfold bind at 1. unfold try_except at 1.
    rewrite Er, Hm. unfold ret at 1.
    unfold bind at 1. unfold try_except at 1.
    rewrite (setwinsize_on_instance handle rows cols l2 Hr Hc).
    change (fd handle) with master. fold ioctl.
    destruct (answer _ l2 ioctl) as [e | []]; [| reflexivity].
    destruct (is_OSError e); [| reflexivity].
    cbn [andb]. destruct (args0_in e [EINVAL; ENOTTY; ENXIO]); reflexivity.
Qed.

End SpawnParent.

Lemma spawn_reads_the_error_pipe_witness :
  spawn (P := linux) (os := child_reports (OSError 13))
    (ArgvList ["ls"%string; "-l"%string]) None None true false (24, 80) [] []
  = (inl (OSError 13),
     [] ++ spawn_calls "ls" 3 4 5 ++ [Ev (PickleLoad 3)])
  /\ fst (spawn (P := linux) (os := child_reports (EOFError "child says"))
            (ArgvList ["ls"%string; "-l"%string]) None None true false
            (24, 80) [] [])
     = inr (mkPtyProcess 4242 5 (Some ["/bin/ls"%string; "-l"%string]) None
              None (mkFileObj 5 false) false false None None None false
              (1 # 10) (1 # 10) None).
Proof.
  split.
  - destruct (spawn_reads_the_error_pipe (P := linux)
                (os := child_reports (OSError 13))
                (ArgvList ["ls"%string; "-l"%string]) "ls"%string
                ["-l"%string] "/bin/ls"%string None None true false 24 80 []
                [] 3 4 4242 5) as [H _].
    + left. reflexivity.
    + repeat split; try reflexivity. discriminate.
    + rewrite H; [reflexivity |]. intros msg. discriminate.
  - destruct (spawn_reads_the_error_pipe (P := linux)
                (os := child_reports (EOFError "child says"))
                (ArgvList ["ls"%string; "-l"%string]) "ls"%string
                ["-l"%string] "/bin/ls"%string None None true false 24 80 []
                [] 3 4 4242 5) as [_ H].
    + left. reflexivity.
    + repeat split; try reflexivity. discriminate.
    + rewrite H; [reflexivity | | lia | lia].
      exists "child says"%string. reflexivity.
Defined.


(** ** Spawning: the child *)

Section AnyState.

Context {S : Type} (R : S -> S -> Prop) `{!PreOrder R}.

Lemma any_ret A (a : A) : keeps R (@ret S A a).
Proof. intros s. reflexivity. Qed.

Lemma any_raise A e : keeps R (@raise S A e).
Proof. intros s. reflexivity. Qed.

Lemma any_bind A B (m : M S A) (k : A -> M S B) :
  keeps R m -> (forall a, keeps R (k a)) -> keeps R (bind m k).
Proof.
  intros Hm Hk s. unfold bind. specialize (Hm s).
  destruct (m s) as [[e | a] s1]; cbn [snd] in *; [exact Hm |].
  etransitivity; [exact Hm | apply Hk].
Qed.

Lemma any_try A (m : M S A) h :
  keeps R m ->
  (forall e, match h e with Some h' => keeps R h' | None => True end) ->
  keeps R (try_except m h).
Proof.
  intros Hm Hh s. unfold try_except. specialize (Hm s).
  destruct (m s) as [[e | a] s1]; cbn [snd] in *; [| exact Hm].
  specialize (Hh e). destruct (h e) as [h' |]; [| exact Hm].
  etransitivity; [exact Hm | apply Hh].
Qed.

Lemma any_for_each A (l : list A) (body : A -> M S unit) :
  (forall a, In a l -> keeps R (body a)) -> keeps R (for_each l body).
Proof.
  induction l as [| a l IH]; intros Hb; cbn [for_each].
  - apply any_ret.
  - apply any_bind; [apply Hb; left; reflexivity |].
    intros _. apply IH. intros b Hin. apply Hb. right. exact Hin.
Qed.

End AnyState.

Section SortedDescriptors.

Lemma insert_fd_In x y l : In x (insert_fd y l) <-> x = y \/ In x l.
Proof.
  induction l as [| z l IH]; cbn [insert_fd].
  - cbn. intuition.
  - destruct (y <? z) eqn:E1; [cbn; intuition |].
    destruct (y =? z) eqn:E2.
    + apply Z.eqb_eq in E2. subst z. cbn. intuition.
    + cbn [In]. rewrite IH. intuition.
Qed.

Lemma insert_fd_sorted y l :
  StronglySorted Z.lt l -> StronglySorted Z.lt (insert_fd y l).
Proof.
  induction 1 as [| z l Hs IH Hall]; cbn [insert_fd].
  - constructor; constructor.
  - destruct (y <? z) eqn:E1.
    + apply Z.ltb_lt in E1. constructor.
      * constructor; assumption.
      * constructor; [exact E1 |].
        eapply Forall_impl; [| exact Hall]. cbv beta. intros. lia.
    + destruct (y =? z) eqn:E2; [constructor; assumption |].
      apply Z.ltb_ge in E1. apply Z.eqb_neq in E2.
      constructor; [exact IH |].
      apply Forall_forall. intros k Hk. apply insert_fd_In in Hk.
      destruct Hk as [-> | Hk]; [lia |].
      rewrite Forall_forall in Hall. apply Hall. exact Hk.
Qed.

Lemma sorted_set_In x l : In x (sorted_set l) <-> In x l.
Proof.
  induction l as [| y l IH]; cbn [sorted_set fold_right]; [reflexivity |].
  fold (sorted_set l). rewrite insert_fd_In, IH. cbn. intuition.
Qed.

Lemma sorted_set_sorted l : StronglySorted Z.lt (sorted_set l).
Proof.
  induction l as [| y l IH]; cbn [sorted_set fold_right]; [constructor |].
  apply insert_fd_sorted. exact IH.
Qed.

(** No gap between neighbours holds a member. *)
Lemma gaps_miss s : forall x m,
  StronglySorted Z.lt s ->
  forall a b, In (a, b) (combine (x :: s) (s ++ [m])) ->
  forall k, In k s -> ~ (a < k < b).
Proof.
  induction s as [| z s IH]; intros x m Hs a b Hin k Hk; [destruct Hk |].
  inversion Hs as [| ? ? Hs' Hall]; subst.
  rewrite Forall_forall in Hall.
  change (combine (x :: z :: s) ((z :: s) ++ [m]))
    with ((x, z) :: combine (z :: s) (s ++ [m])) in Hin.
  destruct Hin as [Heq | Hin].
  - inversion Heq; subst a b.
    destruct Hk as [-> | Hk]; [lia |]. specialize (Hall k Hk). lia.
  - destruct Hk as [-> | Hk].
    + apply in_combine_l in Hin. destruct Hin as [-> | Hin]; [lia |].
      specialize (Hall a Hin). lia.
    + exact (IH z m Hs' a b Hin k Hk).
Qed.

(** Every number between the ends that is not a member is in a gap. *)
Lemma gaps_cover s : forall x m n,
  x < n < m -> ~ In n s ->
  exists a b, In (a, b) (combine (x :: s) (s ++ [m])) /\ a < n < b.
Proof.
  induction s as [| z s IH]; intros x m n Hn Hnot.
  - exists x, m. split; [left; reflexivity | exact Hn].
  - change (combine (x :: z :: s) ((z :: s) ++ [m]))
      with ((x, z) :: combine (z :: s) (s ++ [m])).
    destruct (Z.lt_trichotomy n z) as [Hlt | [-> | Hgt]].
    + exists x, z. split; [left; reflexivity | lia].
    + exfalso. apply Hnot. left. reflexivity.
    + destruct (IH z m n) as [a [b [Hin Hab]]]; [lia | |].
      * intros Hin. apply Hnot. right. exact Hin.
      * exists a, b. split; [right; exact Hin | exact Hab].
Qed.

Lemma child_ranges_miss pass_fds wr nofile range k :
  In range (child_ranges pass_fds wr nofile) ->
  In k (pass_fds ++ [wr]) -> ~ closes range k.
Proof.
  unfold child_ranges, closes. intros Hin Hk.
  apply in_map_iff in Hin. destruct Hin as [[a b] [<- Hin]]. cbn [fst snd].
  pose proof (gaps_miss _ 2 _ (sorted_set_sorted (pass_fds ++ [wr])) a b Hin k
                (proj2 (sorted_set_In k _) Hk)).
  lia.
Qed.

Lemma child_ranges_cover pass_fds wr nofile n :
  2 < n < Z.min 1048576 nofile -> ~ In n (pass_fds ++ [wr]) ->
  exists range, In range (child_ranges pass_fds wr nofile) /\ closes range n.
Proof.
  intros Hn Hnot.
  destruct (gaps_cover (sorted_set (pass_fds ++ [wr])) 2
              (Z.min 1048576 nofile) n Hn) as [a [b [Hin Hab]]].
  { rewrite sorted_set_In. exact Hnot. }
  exists (a + 1, b). split.
  - unfold child_ranges. apply in_map_iff. exists (a, b). split;
      [reflexivity | exact Hin].
  - unfold closes. cbn [fst snd]. lia.
Qed.

End SortedDescriptors.

#[export] Instance closes_only_PreOrder ok : PreOrder (closes_only ok).
Proof.
  split.
  - intros l. exists []. split; [symmetry; apply app_nil_r | constructor].
  - intros l1 l2 l3 [r1 [E1 F1]] [r2 [E2 F2]]. exists (r1 ++ r2). split.
    + rewrite E2, E1, app_assoc. reflexivity.
    + apply Forall_app. split; assumption.
Qed.

Section SpawnChild.

Context {P : Platform} {os : Oracle}.

Lemma closeranges_of_app l1 l2 :
  closeranges_of (l1 ++ l2) = closeranges_of l1 ++ closeranges_of l2.
Proof. apply flat_map_app. Qed.

Lemma closes_only_call ok X (c : Call X) :
  Forall ok (closeranges_of [Ev c]) ->
  keeps (closes_only ok) (call (S := list Event) c).
Proof.
  intros Hok l. rewrite call_run. cbn [snd get_log put_log Logged_log].
  exists (closeranges_of [Ev c]). split; [apply closeranges_of_app | exact Hok].
Qed.

Lemma closes_only_other ok X (c : Call X) :
  closeranges_of [Ev c] = [] ->
  keeps (closes_only ok) (call (S := list Event) c).
Proof. intros E. apply closes_only_call. rewrite E. constructor. Qed.

Ltac child_step :=
  match goal with
  | |- keeps _ (bind _ _) => apply any_bind; [exact _ | | intros ?]
  | |- keeps _ (ret _) => apply any_ret; exact _
  | |- keeps _ (raise _) => apply any_raise; exact _
  | |- keeps _ (try_except _ _) =>
      apply any_try; [exact _ | | intros ?; cbv beta]
  | |- keeps _ (for_each _ _) => apply any_for_each; [exact _ | intros ? ?]
  | |- keeps _ (if ?b then _ else _) => destruct b
  | |- keeps _ (match ?x with _ => _ end) => destruct x
  | |- match (if ?b then _ else _) with _ => _ end => destruct b
  | |- match (match ?x with _ => _ end) with _ => _ end => destruct x
  | |- True => exact I
  | |- keeps _ (call _) => apply closes_only_other; reflexivity
  end.

(** X17.  The child closes no descriptor it was asked to keep: whatever the
    calls of the child answer and however far it gets, every range it hands
    to [os.closerange] leaves out the descriptors of [pass_fds] and the
    write end of the error pipe. *)
Theorem child_keeps_passed_descriptors command argv cwd env echo preexec_fn
    dimensions pass_fds r wr l :
  closes_only (fun range => forall k, In k (pass_fds ++ [wr]) ->
                                      ~ closes range k)
    l (snd (spawn_child command argv cwd env echo preexec_fn dimensions
              pass_fds r wr l)).
Proof.
  revert l. change (keeps (closes_only (fun range =>
                      forall k, In k (pass_fds ++ [wr]) -> ~ closes range k))
                      (spawn_child command argv cwd env echo preexec_fn
                         dimensions pass_fds r wr)).
  unfold spawn_child, _setwinsize, _setecho, struct_pack_HHHH, os_exit.
  repeat child_step.
  apply closes_only_call. cbn [closeranges_of flat_map app].
  constructor; [| constructor]. intros k Hk.
  match goal with
  | H : In ?pair (combine _ (_ ++ [Z.min 1048576 ?n])) |- _ =>
      apply (child_ranges_miss pass_fds wr n); [| exact Hk];
      unfold child_ranges; apply in_map_iff; exists pair;
      split; [reflexivity | exact H]
  end.
Qed.

(** *** The child does not come back *)

Lemma never_returns_bind {S A B} (m : M S A) (k : A -> M S B) :
  (forall a, never_returns (k a)) -> never_returns (bind m k).
Proof.
  intros Hk s. unfold bind. destruct (m s) as [[e | a] s1].
  - exists e. reflexivity.
  - apply Hk.
Qed.

Lemma never_returns_raise {S A} e : never_returns (@raise S A e).
Proof. intros s. exists e. reflexivity. Qed.

Lemma never_returns_try {S A} (m : M S A) h :
  never_returns m ->
  (forall e, match h e with Some h' => never_returns h' | None => True end) ->
  never_returns (try_except m h).
Proof.
  intros Hm Hh s. unfold try_except. destruct (Hm s) as [e He].
  destruct (m s) as [[e' | a] s1]; cbn [fst] in He; [| discriminate].
  specialize (Hh e'). destruct (h e') as [h' |].
  - apply Hh.
  - exists e'. reflexivity.
Qed.

Lemma spawn_child_never_returns command argv cwd env echo preexec_fn dimensions
    pass_fds r wr :
  never_returns (spawn_child command argv cwd env echo preexec_fn dimensions
                   pass_fds r wr).
Proof.
  unfold spawn_child.
  repeat (apply never_returns_bind; intros ?).
  apply never_returns_try.
  - apply never_returns_bind. intros _. apply never_returns_raise.
  - intros e. destruct (is_OSError e); [| exact I].
    apply never_returns_bind. intros _. unfold os_exit.
    apply never_returns_bind. intros _. apply never_returns_raise.
Qed.

End SpawnChild.

Lemma child_keeps_passed_descriptors_witness :
  closes_only
    (fun range => forall k, In k ([7; 5] ++ [4]) -> ~ closes range k) []
    (snd (spawn_child (P := linux) (os := calm) "/bin/ls"
            ["/bin/ls"%string] None None true false (24, 80) [7; 5] 3 4 [])).
Proof.
  apply (child_keeps_passed_descriptors (P := linux) (os := calm)).
Defined.

(** *** The child whose calls all succeed *)

Section ChildSucceeds.

Context {P : Platform} {os : Oracle}.

Hypothesis all_succeed :
  forall l X (c : Call X),
    is_child_call c = true -> exists a, answer X l c = inr a.

Lemma quiet_ret A (a : A) : quiet (ret a).
Proof.
  intros l. exists a, []. rewrite app_nil_r. split; reflexivity.
Qed.

Lemma quiet_bind A B (m : M (list Event) A) (k : A -> M (list Event) B) :
  quiet m -> (forall a, quiet (k a)) -> quiet (bind m k).
Proof.
  intros Hm Hk l. destruct (Hm l) as [a [es [E C]]].
  destruct (Hk a (l ++ es)) as [b [es' [E' C']]].
  exists b, (es ++ es'). unfold bind. rewrite E, E', app_assoc.
  split; [reflexivity |]. rewrite closeranges_of_app, C, C'. reflexivity.
Qed.

Lemma quiet_try A (m : M (list Event) A) h : quiet m -> quiet (try_except m h).
Proof.
  intros Hm l. destruct (Hm l) as [a [es [E C]]].
  exists a, es. unfold try_except. rewrite E. split; [reflexivity | exact C].
Qed.

Lemma quiet_call X (c : Call X) :
  is_child_call c = true -> closeranges_of [Ev c] = [] -> quiet (call c).
Proof.
  intros Hc C l. destruct (all_succeed l X c Hc) as [a E].
  exists a, [Ev c]. rewrite call_run. cbn [get_log put_log Logged_log].
  rewrite E. split; [reflexivity | exact C].
Qed.

Lemma quiet_then A B (m : M (list Event) A) (k : A -> M (list Event) B) l :
  quiet m ->
  exists a es, closeranges_of es = [] /\ bind m k l = k a (l ++ es).
Proof.
  intros Hm. destruct (Hm l) as [a [es [E C]]].
  exists a, es. split; [exact C |]. unfold bind. rewrite E. reflexivity.
Qed.

Ltac quiet_step :=
  match goal with
  | |- quiet (bind _ _) => apply quiet_bind; [| intros ?]
  | |- quiet (ret _) => apply quiet_ret
  | |- quiet (try_except _ _) => apply quiet_try
  | |- quiet (call _) => apply quiet_call; reflexivity
  | |- quiet (if ?b then _ else _) => destruct b
  | |- quiet (match ?x with _ => _ end) => destruct x
  end.

Lemma for_each_closerange (pairs : list (Z * Z)) l :
  for_each pairs (fun pair => call (Closerange (fst pair + 1) (snd pair))) l
  = (inr tt,
     l ++ map (fun pair => Ev (Closerange (fst pair + 1) (snd pair))) pairs).
Proof.
  revert l. induction pairs as [| pair pairs IH]; intros l;
    cbn [for_each map].
  - rewrite app_nil_r. reflexivity.
  - unfold bind at 1. rewrite call_run. cbn [get_log put_log Logged_log].
    destruct (all_succeed l _ (Closerange (fst pair + 1) (snd pair))
                eq_refl) as [[] E].
    rewrite E, IH, <- app_assoc. reflexivity.
Qed.

Lemma closeranges_of_map (pairs : list (Z * Z)) :
  closeranges_of
    (map (fun pair => Ev (Closerange (fst pair + 1) (snd pair))) pairs)
  = map (fun pair => (fst pair + 1, snd pair)) pairs.
Proof.
  induction pairs as [| pair pairs IH]; [reflexivity |].
  cbn [map]. change (closeranges_of (?e :: ?l))
    with (closeranges_of [e] ++ closeranges_of l).
  rewrite IH. reflexivity.
Qed.

(** X18.  When every call the child makes succeeds and the dimensions fit,
    the child reaches [exec], and by then it has closed every descriptor
    above 2 and below [max_fd] (the soft limit on open files, capped at
    1048576) other than those of [pass_fds] and the write end of the error
    pipe. The ranges it closed are the gaps between those descriptors, in
    ascending order and nothing else; the [exec] is its last call, [execv]
    without an environment and [execvpe] with one. *)
Theorem child_closes_the_rest command argv cwd env echo preexec_fn rows cols
    pass_fds r wr nofile l :
  (forall l', answer _ l' GetrlimitNofile = inr nofile) ->
  0 <= rows <= 65535 -> 0 <= cols <= 65535 ->
  exists es,
    spawn_child command argv cwd env echo preexec_fn (rows, cols) pass_fds
      r wr l
    = (inl ProcessReplaced,
       l ++ es ++ [match env with
                   | None => Ev (Execv command argv)
                   | Some env => Ev (Execvpe command argv env)
                   end])
    /\ closeranges_of es = child_ranges pass_fds wr nofile
    /\ (forall n,
          2 < n < Z.min 1048576 nofile -> ~ In n (pass_fds ++ [wr]) ->
          exists range, In range (closeranges_of es) /\ closes range n).
Proof.
  intros Hn Hr Hc. unfold spawn_child. cbn [fst snd].
  (* the window size *)
  match goal with
  | |- context [bind ?m ?k ?l0] =>
      destruct (quiet_then _ _ m k l0) as [[] [es1 [C1 E1]]];
        [| rewrite E1; clear E1]
  end.
  { apply quiet_try. unfold _setwinsize, struct_pack_HHHH.
    rewrite (proj2 (in_range_pack rows cols) (conj Hr Hc)).
    repeat quiet_step. }
  (* the echo *)
  match goal with
  | |- context [bind ?m ?k ?l0] =>
      destruct (quiet_then _ _ m k l0) as [[] [es2 [C2 E2]]];
        [| rewrite E2; clear E2]
  end.
  { destruct echo; cbn [negb]; [apply quiet_ret |].
    unfold _setecho. repeat quiet_step. }
  (* the error pipe *)
  match goal with
  | |- context [bind ?m ?k ?l0] =>
      destruct (quiet_then _ _ m k l0) as [[] [es3 [C3 E3]]];
        [| rewrite E3; clear E3]
  end.
  { repeat quiet_step. }
  match goal with
  | |- context [bind ?m ?k ?l0] =>
      destruct (quiet_then _ _ m k l0) as [[] [es4 [C4 E4]]];
        [| rewrite E4; clear E4]
  end.
  { repeat quiet_step. }
  (* the limit and the loop *)
  unfold bind at 1. rewrite call_run. cbn [get_log put_log Logged_log].
  rewrite Hn. cbv zeta.
  unfold bind at 1. rewrite for_each_closerange.
  match goal with
  | |- context [bind ?m ?k ?l0] =>
      destruct (quiet_then _ _ m k l0) as [[] [es5 [C5 E5]]];
        [| rewrite E5; clear E5]
  end.
  { repeat quiet_step. }
  match goal with
  | |- context [bind ?m ?k ?l0] =>
      destruct (quiet_then _ _ m k l0) as [[] [es6 [C6 E6]]];
        [| rewrite E6; clear E6]
  end.
  { repeat quiet_step. }
  set (ranges := map _ (combine _ _)).
  exists (es1 ++ es2 ++ es3 ++ es4 ++ [Ev GetrlimitNofile] ++ ranges
            ++ es5 ++ es6).
  assert (Ec : closeranges_of
                 (es1 ++ es2 ++ es3 ++ es4 ++ [Ev GetrlimitNofile] ++ ranges
                    ++ es5 ++ es6)
               = child_ranges pass_fds wr nofile).
  { rewrite !closeranges_of_app, C1, C2, C3, C4, C5, C6. subst ranges.
    rewrite closeranges_of_map, app_nil_r. reflexivity. }
  split; [| split].
  - unfold try_except.
    destruct env as [env |]; unfold bind at 1; rewrite call_run;
      cbn [get_log put_log Logged_log];
      match goal with
      | |- context [answer ?X ?l ?c] =>
          destruct (all_succeed l X c eq_refl) as [[] E]; rewrite E
      end;
      cbn [raise is_OSError]; rewrite <- !app_assoc; reflexivity.
  - exact Ec.
  - intros n Hn' Hnot. rewrite Ec. apply child_ranges_cover; assumption.
Qed.

End ChildSucceeds.

Lemma child_closes_the_rest_witness :
  exists es,
    spawn_child (P := linux) (os := calm) "/bin/ls"
      ["/bin/ls"%string] None None false true (24, 80) [7; 5] 3 4 []
    = (inl ProcessReplaced,
       [] ++ es ++ [Ev (Execv "/bin/ls" ["/bin/ls"%string])])
    /\ closeranges_of es = [(3, 4); (5, 5); (6, 7); (8, 1024)].
Proof.
  assert (Hall : forall l X (c : Call X),
             is_child_call c = true ->
             exists a, answer (Oracle := calm) X l c = inr a).
  { intros l X c Hc. destruct c; try discriminate Hc; eexists; reflexivity. }
  destruct (child_closes_the_rest (P := linux) (os := calm) Hall
              "/bin/ls"%string ["/bin/ls"%string] None None false true 24 80
              [7; 5] 3 4 1024 []) as [es [E [C _]]].
  - intros l'. reflexivity.
  - lia.
  - lia.
  - exists es. split; [exact E | exact C].
Defined.

(** *** The two sides of the fork *)

Section ForkedChild.

Context {P : Platform} {os : Oracle}.

(** X19.  In the process where the fork answers [CHILD], [spawn] is the
    child branch and nothing else: it makes the calls of that branch and
    ends with the exception that ended the branch, which is there in every
    case (an error, the replacement of the program by [exec], or
    [os._exit]). No handle is built and no call of the parent's side is
    made. *)
Theorem spawn_in_child_is_child_branch argv command rest path cwd env echo
    preexec_fn dimensions pass_fds l r wr master :
  argv = ArgvList (command :: rest) \/ argv = ArgvTuple (command :: rest) ->
  answer _ l (Which command) = inr (Some path) ->
  answer _ (l ++ [Ev (Which command)]) Pipe = inr (r, wr) ->
  answer _ (l ++ [Ev (Which command); Ev Pipe]) PtyFork
  = inr (CHILD, master) ->
  exists e,
    spawn_child path (path :: rest) cwd env echo preexec_fn dimensions
      pass_fds r wr (l ++ [Ev (Which command); Ev Pipe; Ev PtyFork])
    = (inl e,
       snd (spawn argv cwd env echo preexec_fn dimensions pass_fds l))
    /\ fst (spawn argv cwd env echo preexec_fn dimensions pass_fds l)
       = inl e.
Proof.
  intros Hargv H1 H2 H3.
  destruct (spawn_child_never_returns path (path :: rest) cwd env echo
              preexec_fn dimensions pass_fds r wr
              (l ++ [Ev (Which command); Ev Pipe; Ev PtyFork])) as [e He].
  exists e.
  assert (Es : spawn argv cwd env echo preexec_fn dimensions pass_fds l
               = (inl e,
                  snd (spawn_child path (path :: rest) cwd env echo
                         preexec_fn dimensions pass_fds r wr
                         (l ++ [Ev (Which command); Ev Pipe; Ev PtyFork])))).
  { destruct Hargv as [-> | ->]; unfold spawn;
      unfold bind at 1; unfold ret at 1;
      unfold bind at 1; unfold ret at 1;
      unfold bind at 1; rewrite call_run; cbn [get_log put_log Logged_log];
      rewrite H1;
      unfold bind at 1; rewrite call_run; cbn [get_log put_log Logged_log];
      rewrite H2;
      unfold bind at 1; rewrite call_run; cbn [get_log put_log Logged_log];
      rewrite <- app_assoc; cbn [app]; rewrite H3; cbn [fst snd tl];
      rewrite Z.eqb_refl, <- app_assoc; cbn [app];
      unfold bind at 1;
      destruct (spawn_child _ _ _ _ _ _ _ _ _ _ _) as [[e' | []] l'];
      cbn [fst snd] in *; congruence. }
  rewrite Es. cbn [fst snd]. split; [| reflexivity].
  destruct (spawn_child _ _ _ _ _ _ _ _ _ _ _) as [[e' | []] l'];
    cbn [fst snd] in *; congruence.
Qed.

End ForkedChild.

Lemma spawn_in_child_is_child_branch_witness :
  exists e,
    fst (spawn (P := linux) (os := in_child) (ArgvList ["ls"%string]) None
           None true false (24, 80) [] [])
    = inl e.
Proof.
  destruct (spawn_in_child_is_child_branch (P := linux) (os := in_child)
              (ArgvList ["ls"%string]) "ls"%string [] "/bin/ls"%string
              None None true false (24, 80) [] [] 3 4 0) as [e [E1 E2]].
  - left. reflexivity.
  - reflexivity.
  - reflexivity.
  - reflexivity.
  - exists e. exact E2.
Defined.

(** ** A child that no signal ends *)

Section Stubborn.

Context {P : Platform} {os : Oracle}.
Variable p : Z.
Hypothesis ignores_all :
  forall l o, exists st, answer _ l (Waitpid p o) = inr (0, st).
Hypothesis kill_ok : forall l sig, answer _ l (Kill p sig) = inr tt.
Hypothesis sleep_ok : forall l d, answer _ l (Sleep d) = inr tt.

Lemma alive_stubborn (w : World) :
  terminated (self w) = false -> pid (self w) = p ->
  isalive w = (inr true, logged (probe_calls w) w).
Proof.
  intros Ht Hp.
  assert (Ha : exists st, probe_answer w = inr (0, st)).
  { unfold probe_answer. rewrite Hp.
    destruct (ignores_all (log w) (probe_options w)) as [st ->].
    apply ignores_all. }
  destruct Ha as [st Ha].
  isalive_inv w; try congruence;
    match goal with
    | E : probe_answer w = inr (?q, _), N : ?q <> 0 |- _ =>
        rewrite Ha in E; inversion E; subst; contradiction
    end.
Qed.

Lemma round_stubborn sig (rest : Method bool) (w : World) :
  terminated (self w) = false -> pid (self w) = p ->
  exists w',
    (kill sig ;;
     d <- gets delayafterterminate ;; call (Sleep d) ;;
     alive <- isalive ;;
     if negb alive then ret true else rest) w
    = rest w'
    /\ self w' = self w
    /\ kills_of (log w') = kills_of (log w) ++ [(p, sig)].
Proof.
  intros Ht Hp.
  set (w1 := logged (probe_calls w) w).
  set (w2 := logged [Ev (Kill p sig)] w1).
  set (w3 := logged [Ev (Sleep (delayafterterminate (self w)))] w2).
  exists (logged (probe_calls w3) w3). split; [| split].
  - assert (Ek : kill sig w = (inr tt, w2)).
    { unfold kill. rewrite (bind_inr _ _ _ _ _ (alive_stubborn w Ht Hp)).
      cbn [negb]. unfold bind at 1. unfold gets at 1.
      rewrite call_run. cbn [get_log put_log Logged_World self log logged].
      fold w1. rewrite Hp, kill_ok. reflexivity. }
    rewrite (bind_inr _ _ _ _ _ Ek).
    unfold bind at 1. unfold gets at 1.
    unfold bind at 1. rewrite call_run.
    cbn [get_log put_log Logged_World]. rewrite sleep_ok.
    change (mkWorld (self w2) (log w2 ++ [Ev (Sleep (delayafterterminate
                                                      (self w2)))]))
      with w3.
    rewrite (bind_inr _ _ _ _ _ (alive_stubborn w3 Ht Hp)). reflexivity.
  - reflexivity.
  - subst w1 w2 w3. cbn [log logged].
    rewrite !kills_of_app, !kills_of_probe_calls.
    cbn [kills_of flat_map app]. rewrite !app_nil_r. reflexivity.
Qed.

Lemma stages_stubborn sigs : forall w : World,
  terminated (self w) = false -> pid (self w) = p ->
  exists w',
    stages sigs (ret false) w = (inr false, w')
    /\ self w' = self w
    /\ kills_of (log w') = kills_of (log w) ++ map (pair p) sigs.
Proof.
  induction sigs as [| sig sigs IH]; intros w Ht Hp; cbn [stages map].
  - exists w. rewrite app_nil_r. repeat split.
  - destruct (round_stubborn sig (stages sigs (ret false)) w Ht Hp)
      as [w1 [E [Hs Hl]]].
    rewrite E.
    destruct (IH w1) as [w' [E' [Hs' Hl']]]; [congruence | congruence |].
    exists w'. split; [exact E' |]. split; [congruence |].
    rewrite Hl', Hl, <- app_assoc. reflexivity.
Qed.

(** X20.  Against a child that keeps running whatever it is sent,
    [terminate] goes through the whole order of signals, SIGHUP, SIGCONT,
    SIGINT and with [force] SIGKILL, each once, and then answers [False];
    the handle is left as it was, not terminated. *)
Theorem terminate_gives_up (force : bool) (w : World) :
  terminated (self w) = false -> pid (self w) = p ->
  exists w',
    terminate force w = (inr false, w')
    /\ self w' = self w
    /\ kills_of (log w')
       = kills_of (log w) ++ map (pair p) (escalation force).
Proof.
  intros Ht Hp. unfold terminate.
  rewrite (bind_inr _ _ _ _ _ (alive_stubborn w Ht Hp)). cbn [negb].
  rewrite terminate_signals_stages.
  destruct (stages_stubborn (escalation force) (logged (probe_calls w) w))
    as [w' [E [Hs Hl]]]; [exact Ht | exact Hp |].
  exists w'. rewrite (try_except_inr _ _ _ _ _ E).
  split; [reflexivity |]. split; [exact Hs |].
  rewrite Hl. cbn [log logged].
  rewrite kills_of_app, kills_of_probe_calls, app_nil_r. reflexivity.
Qed.

End Stubborn.

Lemma terminate_gives_up_witness :
  exists w',
    terminate (P := linux) (os := calm) true world0 = (inr false, w')
    /\ self w' = handle0
    /\ kills_of (log w') = [(4242, 1); (4242, 18); (4242, 2); (4242, 9)].
Proof.
  destruct (terminate_gives_up (P := linux) (os := calm) 4242) with
    (force := true) (w := world0) as [w' [E [Hs Hl]]].
  - intros l o. exists 0. reflexivity.
  - reflexivity.
  - reflexivity.
  - reflexivity.
  - reflexivity.
  - exists w'. split; [exact E |]. split; [exact Hs | exact Hl].
Defined.

(** ** The control characters of the terminal *)

Section IntrEof.

Lemma byte_of_ord (c : Byte.byte) :
  @_byte unit (Z.of_N (Byte.to_N c)) tt = (inr [c], tt).
Proof.
  unfold _byte. pose proof (Byte.to_N_bounded c) as Hb.
  assert (E : (0 <=? Z.of_N (Byte.to_N c)) && (Z.of_N (Byte.to_N c) <? 256)
              = true).
  { apply andb_true_iff. split; [apply Z.leb_le | apply Z.ltb_lt]; lia. }
  rewrite E, N2Z.id, Byte.of_to_N. reflexivity.
Qed.

Lemma stream_fileno_none fd stream :
  no_descriptor stream -> @stream_fileno unit fd stream tt = (inr fd, tt).
Proof. intros [-> | [msg ->]]; reflexivity. Qed.

Lemma stream_fileno_some fd n :
  @stream_fileno unit fd (Stream (inr n)) tt = (inr (Some n), tt).
Proof. reflexivity. Qed.

(** X21.  [_get_intr_eof] asks the terminal of the standard output when that
    stream has a descriptor, whatever the standard input has: the loop over
    the two streams does not stop at the first descriptor, the later one
    replaces it. The interrupt character is taken from one call of
    [tcgetattr] on that descriptor and the end-of-file character from a
    second call, each as the one byte at its index in the control
    characters. *)
Theorem get_intr_eof_asks_stdout (i : Interpreter) vintr veof out a0 a1
    (bi be : Byte.byte) :
  termios_V i = Some (vintr, veof) ->
  (no_descriptor (sys_stdin i) \/ exists n, sys_stdin i = Stream (inr n)) ->
  sys_stdout i = Stream (inr out) ->
  tcgetattr i out 0 = inr a0 -> nth_error (cc a0) vintr = Some [bi] ->
  tcgetattr i out 1 = inr a1 -> nth_error (cc a1) veof = Some [be] ->
  _get_intr_eof i tt = (inr ([bi], [be]), tt).
Proof.
  intros HV Hin Hout H0 Hi H1 He. unfold _get_intr_eof.
  assert (Et : forall h,
             try_except
               (v <- match termios_V i with
                     | Some v => ret v
                     | None => raise (OtherException "ImportError")
                     end ;;
                fd <- stream_fileno None (sys_stdin i) ;;
                fd <- stream_fileno fd (sys_stdout i) ;;
                fd <- match fd with
                      | Some fd => ret fd
                      | None => raise (ValueError "No stream has a fileno")
                      end ;;
                attr <- of_answer (tcgetattr i fd 0) ;;
                c <- item (cc attr) (fst v) ;;
                intr <- ord_bytes c ;;
                attr <- of_answer (tcgetattr i fd 1) ;;
                c <- item (cc attr) (snd v) ;;
                eof <- ord_bytes c ;;
                ret (intr, eof)) h tt
             = (inr (Z.of_N (Byte.to_N bi), Z.of_N (Byte.to_N be)), tt)).
  { intros h. apply try_except_inr. rewrite HV. unfold bind at 1.
    unfold ret at 1. cbn [fst snd].
    assert (Es : exists f, @stream_fileno unit None (sys_stdin i) tt
                           = (inr f, tt)).
    { destruct Hin as [Hn | [n ->]].
      - exists None. apply stream_fileno_none, Hn.
      - exists (Some n). reflexivity. }
    destruct Es as [f Es]. rewrite (bind_inr _ _ _ _ _ Es).
    rewrite Hout.
    rewrite (bind_inr _ _ _ _ _ (stream_fileno_some f out)).
    unfold bind at 1. unfold ret at 1.
    unfold bind at 1. rewrite H0. unfold of_answer at 1. unfold ret at 1.
    unfold bind at 1. unfold item at 1. rewrite Hi. unfold ret at 1.
    unfold bind at 1. unfold ord_bytes at 1. unfold ret at 1.
    unfold bind at 1. rewrite H1. unfold of_answer at 1. unfold ret at 1.
    unfold bind at 1. unfold item at 1. rewrite He. reflexivity. }
  unfold bind at 1. rewrite Et. cbn [fst snd].
  unfold bind at 1. rewrite byte_of_ord.
  unfold bind at 1. rewrite byte_of_ord. reflexivity.
Qed.

(** X22.  [_get_intr_eof] falls back on the defaults, [CINTR] and [CEOF] of
    [termios] or else 3 and 4 (Control-C and Control-D), in each of these
    cases: [termios] lacks [VINTR] or [VEOF]; neither standard stream gives
    a descriptor; the first call of [tcgetattr] raises [termios.error] or an
    [OSError]. The descriptor asked is then that of the standard input, when
    only that stream has one. *)
Theorem get_intr_eof_falls_back (i : Interpreter) :
  (termios_V i = None -> _get_intr_eof i tt = intr_eof_default i)
  /\ (no_descriptor (sys_stdin i) -> no_descriptor (sys_stdout i) ->
      _get_intr_eof i tt = intr_eof_default i)
  /\ (forall n e,
        sys_stdin i = Stream (inr n) -> no_descriptor (sys_stdout i) ->
        tcgetattr i n 0 = inl e ->
        is_OSError e = true \/ (exists code, e = TermiosError code) ->
        _get_intr_eof i tt = intr_eof_default i)
  /\ (termios_C i = None ->
      intr_eof_default i = (inr ([x03]%byte, [x04]%byte), tt)).
Proof.
  split; [| split; [| split]].
  - intros HV. unfold _get_intr_eof, intr_eof_default.
    unfold bind at 1. unfold try_except at 1. rewrite HV.
    cbn [bind raise is_ImportError String.eqb orb].
    destruct (termios_C i); reflexivity.
  - intros Hin Hout. unfold _get_intr_eof, intr_eof_default.
    unfold bind at 1. unfold try_except at 1.
    destruct (termios_V i) as [v |].
    + unfold bind at 1. unfold ret at 1.
      rewrite (bind_inr _ _ _ _ _ (stream_fileno_none None _ Hin)).
      rewrite (bind_inr _ _ _ _ _ (stream_fileno_none None _ Hout)).
      cbn [bind raise is_ImportError is_OSError orb].
      destruct (termios_C i); reflexivity.
    + cbn [bind raise is_ImportError String.eqb orb].
      destruct (termios_C i); reflexivity.
  - intros n e Hin Hout H0 Hcaught.
    unfold _get_intr_eof, intr_eof_default.
    unfold bind at 1. unfold try_except at 1.
    destruct (termios_V i) as [v |].
    + unfold bind at 1. unfold ret at 1.
      rewrite Hin.
      rewrite (bind_inr _ _ _ _ _ (stream_fileno_some None n)).
      rewrite (bind_inr _ _ _ _ _ (stream_fileno_none (Some n) _ Hout)).
      unfold bind at 1. unfold ret at 1.
      unfold bind at 1. rewrite H0. unfold of_answer at 1. unfold raise at 1.
      assert (Ec : is_ImportError e || is_OSError e
                   || match e with
                      | ValueError _ | TermiosError _ => true
                      | _ => false
                      end = true).
      { destruct Hcaught as [Ho | [code ->]].
        - rewrite Ho, orb_true_r. reflexivity.
        - reflexivity. }
      rewrite Ec. destruct (termios_C i); reflexivity.
    + cbn [bind raise is_ImportError String.eqb orb].
      destruct (termios_C i); reflexivity.
  - intros HC. unfold intr_eof_default. rewrite HC. reflexivity.
Qed.

End IntrEof.

Lemma get_intr_eof_asks_stdout_witness :
  _get_intr_eof
    (on_terminal [[x03]; [x1c]; [x7f]; [x15]; [x04]]%byte) tt
  = (inr ([x03]%byte, [x04]%byte), tt).
Proof.
  apply (get_intr_eof_asks_stdout
           (on_terminal [[x03]; [x1c]; [x7f]; [x15]; [x04]]%byte)
           0%nat 4%nat 1
           (mkTermios 0 0 0 8 0 0 [[x03]; [x1c]; [x7f]; [x15]; [x04]]%byte)
           (mkTermios 0 0 0 8 0 0 [[x03]; [x1c]; [x7f]; [x15]; [x04]]%byte)
           x03 x04)%byte.
  - reflexivity.
  - right. exists 0. reflexivity.
  - reflexivity.
  - reflexivity.
  - reflexivity.
  - reflexivity.
  - reflexivity.
Defined.

Lemma get_intr_eof_falls_back_witness :
  _get_intr_eof detached tt = (inr ([x03]%byte, [x04]%byte), tt).
Proof.
  destruct (get_intr_eof_falls_back detached) as [_ [_ [H _]]].
  rewrite (H 0 (TermiosError 25)).
  - reflexivity.
  - reflexivity.
  - left. reflexivity.
  - reflexivity.
  - right. exists 25. reflexivity.
Defined.
